(** * Safari Tab Manager: the tab reconciliation engine

    A shallow embedding of the classification and closing logic of the
    Go program (pinned-tab filter, staleness enrichment, duplicate
    detection, close protocol), and the properties its specification
    states about them.

    Conventions:
    - a Go [string] is a sequence of bytes: [string] of the Standard
      Library, one [ascii] per byte; [==] on strings is equality;
    - a Go [int] is 64 bits wide; it is modelled by [Z].  Every [int] the
      engine computes is an index, a length or a counter bounded by the
      length of a slice or string held in memory, so no operation wraps;
    - a Go [float64] is a primitive binary64 [float];
    - slices are lists, updated by index with stdpp's insert;
    - Go maps are stdpp [gmap]s. *)

From Stdlib Require Import ZArith Ascii String List Lia.
From Stdlib Require Import Floats.PrimFloat Floats.SpecFloat Floats.FloatOps.
From Stdlib Require Import Numbers.Cyclic.Int63.Uint63.
From stdpp Require Import base option list sorting gmap strings fin_maps.

Local Open Scope string_scope.
Local Open Scope Z_scope.
Local Open Scope list_scope.

(** ** Strings: the functions of Go's [strings] package the engine uses *)

Module strings.

(** [strings.HasPrefix]. *)
Definition HasPrefix (s p : string) : bool := String.prefix p s.

(** [s[n:]]; the callers only slice within the string. *)
Fixpoint drop (n : nat) (s : string) : string :=
  match n, s with
  | O, _ => s
  | S _, EmptyString => EmptyString
  | S n', String _ s' => drop n' s'
  end.

(** [s[:n]]. *)
Fixpoint take (n : nat) (s : string) : string :=
  match n, s with
  | O, _ => EmptyString
  | S _, EmptyString => EmptyString
  | S n', String c s' => String c (take n' s')
  end.

(** [strings.TrimPrefix]: [s] without the leading [p], or [s] itself. *)
Definition TrimPrefix (s p : string) : string :=
  if HasPrefix s p then drop (String.length p) s else s.

(** [strings.HasSuffix]. *)
Definition HasSuffix (s p : string) : bool :=
  (String.length p <=? String.length s)%nat
  && String.eqb (drop (String.length s - String.length p) s) p.

(** [strings.TrimSuffix]. *)
Definition TrimSuffix (s p : string) : string :=
  if HasSuffix s p then take (String.length s - String.length p) s else s.

(** The loop shared by [Split] and [SplitN] for a separator that is not
    empty: [n] is the number of cuts still allowed, [skip] the number of
    bytes of a separator just found that are still to be passed over,
    [cur] the piece being collected. *)
Fixpoint genSplit (sep : string) (n : nat) (s : string) (skip : nat)
    (cur : string) {struct s} : list string :=
  match skip with
  | S k =>
      match s with
      | EmptyString => [cur]
      | String _ s' => genSplit sep n s' k cur
      end
  | O =>
      match n with
      | O => [cur +:+ s]
      | S n' =>
          match s with
          | EmptyString => [cur]
          | String c s' =>
              if HasPrefix s sep
              then cur :: genSplit sep n' s' (String.length sep - 1) EmptyString
              else genSplit sep n s' 0 (cur +:+ String c EmptyString)
          end
      end
  end.

(** [strings.Split(s, sep)], [sep] not empty: all the pieces. *)
Definition Split (s sep : string) : list string :=
  genSplit sep (String.length s) s 0 EmptyString.

(** [strings.SplitN(s, sep, n)] for [n > 0], [sep] not empty: at most
    [n] pieces, the last one the unsplit remainder. *)
Definition SplitN (s sep : string) (n : nat) : list string :=
  genSplit sep (n - 1) s 0 EmptyString.

(** [strings.ToLower] on a string of ASCII bytes: [A]-[Z] become
    [a]-[z], every other byte is kept.  It is applied to ASCII strings
    only; what holds of every string is stated for an arbitrary
    [ToLower]. *)
Definition lower_byte (c : ascii) : ascii :=
  let n := nat_of_ascii c in
  if ((65 <=? n) && (n <=? 90))%nat then ascii_of_nat (n + 32) else c.

Fixpoint ToLowerASCII (s : string) : string :=
  match s with
  | EmptyString => EmptyString
  | String c s' => String (lower_byte c) (ToLowerASCII s')
  end.

End strings.

(** ** Integers and floats *)

(** The variadic [min(nums ...int)] of the program. *)
Definition min (nums : list Z) : Z :=
  match nums with
  | [] => 0
  | n0 :: rest => foldl (fun m n => if n <? m then n else m) n0 rest
  end.

(** [max(a, b int)]. *)
Definition max (a b : Z) : Z := if a >? b then a else b.

(** The conversion [float64(n)] of a non-negative [int]. *)
Definition float64 (n : Z) : float := PrimFloat.of_uint63 (Uint63.of_Z n).

(** The value of a 64-bit signed integer after an operation that may
    overflow. *)
Definition wrap64 (z : Z) : Z := (z + 2 ^ 63) mod 2 ^ 64 - 2 ^ 63.

(** ** Time: the part of Go's [time] package the engine uses

    A Go [Time] without a monotonic clock reading, which is what
    [time.Unix] and [AddDate] return: the field [ext] holds the seconds
    elapsed since January 1 of year 1 in an [int64], the field [wall] the
    nanoseconds within that second.  The location takes no part in a
    comparison. *)

Module time.

Record Time : Type := mkTime { wall : Z; ext : Z }.

(** The zero value of [time.Time]: January 1, year 1, 00:00:00 UTC. *)
Definition zero : Time := mkTime 0 0.

(** The seconds from January 1 of year 1 to January 1, 1970. *)
Definition unixToInternal : Z :=
  (1969 * 365 + 1969 / 4 - 1969 / 100 + 1969 / 400) * 86400.

(** [unixTime(sec, nsec)]: the sum is an [int64] and wraps around. *)
Definition unixTime (sec nsec : Z) : Time :=
  mkTime nsec (wrap64 (sec + unixToInternal)).

(** [time.Unix(sec, nsec)]: nanoseconds outside [0, 1e9) are carried
    into the seconds first. *)
Definition Unix (sec nsec : Z) : Time :=
  if (nsec <? 0) || (nsec >=? 1000000000) then
    let n := Z.quot nsec 1000000000 in
    let sec := wrap64 (sec + n) in
    let nsec := nsec - n * 1000000000 in
    if nsec <? 0 then unixTime (wrap64 (sec - 1)) (nsec + 1000000000)
    else unixTime sec nsec
  else unixTime sec nsec.

(** [t.Before(u)], neither time carrying a monotonic reading: the
    seconds are compared, then the nanoseconds. *)
Definition Before (t u : Time) : bool :=
  let ts := ext t in
  let us := ext u in
  (ts <? us) || ((ts =? us) && (wall t <? wall u)).

End time.

(** ** Data model *)

Record Tab : Type := mkTab {
  WindowIndex : Z;
  TabIndex : Z;
  Title : string;
  URL : string;
  DuplicateOf : option nat;   (* [*int]: [None] is [nil] *)
  Selected : bool;
  LastVisit : time.Time;
  IsOld : bool
}.

(** A tab as [getSafariTabsRaw] builds it: the fields it does not set
    have their zero value. *)
Definition rawTab (w t : Z) (title url : string) : Tab :=
  mkTab w t title url None false time.zero false.

Definition set_DuplicateOf (tab : Tab) (idx : nat) : Tab :=
  mkTab (WindowIndex tab) (TabIndex tab) (Title tab) (URL tab) (Some idx)
        (Selected tab) (LastVisit tab) (IsOld tab).

Definition set_Selected (tab : Tab) (b : bool) : Tab :=
  mkTab (WindowIndex tab) (TabIndex tab) (Title tab) (URL tab) (DuplicateOf tab)
        b (LastVisit tab) (IsOld tab).

Definition set_LastVisit (tab : Tab) (t : time.Time) : Tab :=
  mkTab (WindowIndex tab) (TabIndex tab) (Title tab) (URL tab) (DuplicateOf tab)
        (Selected tab) t (IsOld tab).

Definition set_IsOld (tab : Tab) (b : bool) : Tab :=
  mkTab (WindowIndex tab) (TabIndex tab) (Title tab) (URL tab) (DuplicateOf tab)
        (Selected tab) (LastVisit tab) b.

Record closingCompleteMsg : Type := { count : Z }.

(** ** The duplicate detector's URL similarity *)

Section Similarity.

(** [strings.ToLower] maps Unicode letters with tables of Go's standard
    library; it is a parameter here, instantiated below with the ASCII
    case mapping, which is what it does on ASCII strings. *)
Variable ToLower : string -> string.

Definition extractDomain (url : string) : string :=
  let url := strings.TrimPrefix url "http://" in
  let url := strings.TrimPrefix url "https://" in
  let url := strings.TrimPrefix url "www." in
  let parts := strings.Split url "/" in
  match parts with
  | p0 :: _ => ToLower p0
  | [] => ""
  end.

Definition extractPath (url : string) : string :=
  let parts := strings.SplitN url "//" 2 in
  match parts with
  | _ :: p1 :: _ =>
      let parts := strings.SplitN p1 "/" 2 in
      match parts with
      | _ :: q1 :: _ => "/" +:+ strings.TrimSuffix q1 "/"
      | _ => ""
      end
  | _ => ""
  end.

(** *** The edit-distance matrix

    [matrix] is a slice of [len1+1] rows of [len2+1] ints; the loops
    only read and write cells inside it (an index out of range would
    panic: the total readers below return 0 there, the writers do
    nothing). *)

Definition get2 (matrix : list (list Z)) (i j : nat) : Z :=
  match matrix !! i with
  | Some row => default 0 (row !! j)
  | None => 0
  end.

Definition set2 (matrix : list (list Z)) (i j : nat) (v : Z) : list (list Z) :=
  alter (fun row => <[j := v]> row) i matrix.

(** [make([][]int, len1+1)], then a row [make([]int, len2+1)] with
    [matrix[i][0] = i] for each [i], then [matrix[0][j] = j]. *)
Definition initMatrix (len1 len2 : nat) : list (list Z) :=
  let matrix : list (list Z) := replicate (S len1) [] in
  let matrix :=
    foldl (fun matrix i =>
             let matrix := <[i := replicate (S len2) 0]> matrix in
             set2 matrix i 0 (Z.of_nat i))
          matrix (seq 0 (length matrix)) in
  foldl (fun matrix j => set2 matrix 0 j (Z.of_nat j))
        matrix (seq 0 (length (default [] (matrix !! 0%nat)))).

(** [s[i]], a byte. *)
Definition byteAt (s : string) (i : nat) : option ascii := String.get i s.

(** The body of the inner loop. *)
Definition fillCell (s1 s2 : string) (matrix : list (list Z)) (i j : nat)
    : list (list Z) :=
  let cost := if bool_decide (byteAt s1 (i - 1) = byteAt s2 (j - 1)) then 0 else 1 in
  set2 matrix i j
    (min [ get2 matrix (i - 1) j + 1;
           get2 matrix i (j - 1) + 1;
           get2 matrix (i - 1) (j - 1) + cost ]).

(** [for i := 1; i <= len1; i++ { for j := 1; j <= len2; j++ { ... } }]. *)
Definition fillMatrix (s1 s2 : string) (len1 len2 : nat)
    (matrix : list (list Z)) : list (list Z) :=
  foldl (fun matrix i =>
           foldl (fun matrix j => fillCell s1 s2 matrix i j) matrix (seq 1 len2))
        matrix (seq 1 len1).

(** The Levenshtein distance the function computes on its way. *)
Definition levenshtein (s1 s2 : string) : Z :=
  let len1 := String.length s1 in
  let len2 := String.length s2 in
  get2 (fillMatrix s1 s2 len1 len2 (initMatrix len1 len2)) len1 len2.

Definition calculateSimilarity (s1 s2 : string) : float :=
  let s1 := ToLower s1 in
  let s2 := ToLower s2 in
  if bool_decide (s1 = s2) then 1.0%float
  else
    let len1 := String.length s1 in
    let len2 := String.length s2 in
    if bool_decide (len1 = 0%nat) || bool_decide (len2 = 0%nat) then 0.0%float
    else
      let distance := levenshtein s1 s2 in
      let maxLen := max (Z.of_nat len1) (Z.of_nat len2) in
      (1.0 - float64 distance / float64 maxLen)%float.

(** The threshold [0.7] is the binary64 number nearest to seven tenths. *)
Definition threshold : float := 0x1.6666666666666p-1%float.

Definition areSimilarURLs (url1 url2 : string) : bool :=
  let domain1 := extractDomain url1 in
  let domain2 := extractDomain url2 in
  if bool_decide (domain1 = "") || bool_decide (domain2 = "") then false
  else if negb (bool_decide (domain1 = domain2)) then false
  else
    let path1 := extractPath url1 in
    let path2 := extractPath url2 in
    if bool_decide (path1 = path2) then true
    else
      let similarity := calculateSimilarity path1 path2 in
      PrimFloat.ltb threshold similarity.

End Similarity.

(** ** The duplicate detector *)

Section Duplicates.

Variable ToLower : string -> string.

(** The inner loop [for j := 0; j < i; j++] of [findDuplicates] for the
    tab at [i] with URL [url]: [earlier] are the tabs from index [j] up
    to [i-1].  The result is the index at which the loop breaks. *)
Fixpoint scanEarlier (url : string) (earlier : list Tab) (j : nat) : option nat :=
  match earlier with
  | [] => None
  | tab_j :: rest =>
      if bool_decide (url = URL tab_j) then Some j
      else if areSimilarURLs ToLower url (URL tab_j) then Some j
      else scanEarlier url rest (S j)
  end.

(** The body of the outer loop: [tabs] is updated in place. *)
Definition markDuplicate (tabs : list Tab) (i : nat) : list Tab :=
  match tabs !! i with
  | Some tab_i =>
      match scanEarlier (URL tab_i) (take i tabs) 0 with
      | Some idx => <[i := set_Selected (set_DuplicateOf tab_i idx) true]> tabs
      | None => tabs
      end
  | None => tabs
  end.

Definition findDuplicates (tabs : list Tab) : list Tab :=
  foldl markDuplicate tabs (seq 0 (length tabs)).

End Duplicates.

(** ** The pinned-tab classifier *)

(** [m[k]] on a Go map of ints or bools: the zero value when [k] is
    absent. *)
Definition getZ `{Countable K} (m : gmap K Z) (k : K) : Z := default 0 (m !! k).
Definition getBool `{Countable K} (m : gmap K bool) (k : K) : bool := default false (m !! k).

(** [m[k]++]. *)
Definition incr `{Countable K} (m : gmap K Z) (k : K) : gmap K Z :=
  <[k := getZ m k + 1]> m.

(** First loop: [url -> tabIndex -> count] over the tabs at indices up
    to 4. *)
Definition urlPositionCount (allTabs : list Tab) : gmap string (gmap Z Z) :=
  foldl (fun (m : gmap string (gmap Z Z)) tab =>
           if TabIndex tab <=? 4
           then <[URL tab := incr (default ∅ (m !! URL tab)) (TabIndex tab)]> m
           else m)
        ∅ allTabs.

(** [for _, count := range positionCounts { if count >= 3 { ...; break } }]:
    whether the loop reaches the assignment. *)
Definition reachesThree (positionCounts : gmap Z Z) : bool :=
  map_fold (fun _ count found => found || (count >=? 3)) false positionCounts.

(** Second loop: the set of pinned URLs. *)
Definition pinnedURLs (allTabs : list Tab) : gmap string bool :=
  map_fold (fun url positionCounts (pinned : gmap string bool) =>
              if reachesThree positionCounts then <[url := true]> pinned else pinned)
           ∅ (urlPositionCount allTabs).

(** The test [tab.TabIndex <= 4 && pinnedURLs[tab.URL]]. *)
Definition isPinnedTab (pinned : gmap string bool) (tab : Tab) : bool :=
  (TabIndex tab <=? 4) && getBool pinned (URL tab).

Definition windowTotalCount (allTabs : list Tab) : gmap Z Z :=
  foldl (fun m tab => incr m (WindowIndex tab)) ∅ allTabs.

Definition windowPinnedCount (pinned : gmap string bool) (allTabs : list Tab)
    : gmap Z Z :=
  foldl (fun m tab => if isPinnedTab pinned tab then incr m (WindowIndex tab) else m)
        ∅ allTabs.

(** The windows whose tabs are all pinned.  Go ranges over a map in an
    unspecified order; the order here is the one of [map_fold], and the
    only reader of the slice sorts it. *)
Definition emptyWindowsOf (total pinnedCnt : gmap Z Z) : list Z :=
  map_fold (fun windowIdx totalCount (emptyWindows : list Z) =>
              let pinnedCount := getZ pinnedCnt windowIdx in
              if (totalCount >? 0) && (pinnedCount =? totalCount)
              then emptyWindows ++ [windowIdx] else emptyWindows)
           [] total.

(** The map [windowTabs] of the source is filled but never read; it is
    left out. *)
Definition filterPinnedTabs (allTabs : list Tab) : list Tab * list Z :=
  let pinned := pinnedURLs allTabs in
  let emptyWindows :=
    emptyWindowsOf (windowTotalCount allTabs) (windowPinnedCount pinned allTabs) in
  let result := filter (fun tab => isPinnedTab pinned tab = false) allTabs in
  (result, emptyWindows).

(** ** The host: Safari behind [osascript], the history database, the clock *)

(** The scripts the program runs through [osascript]. *)
Inductive Command : Type :=
  | Enumerate                          (* the script of [getSafariTabsRaw] *)
  | CloseTab (tab window : Z)          (* [close tab %d of window %d] *)
  | CloseWindow (window : Z).          (* [close window %d] *)

(** The lines the program writes to its log. *)
Inductive LogLine : Type :=
  | ErrGettingCurrentTabs
  | WarnCloseTab (tab window : Z)
  | WarnCloseWindow (window : Z)
  | WarnHomeDir
  | WarnOpenHistory
  | WarnQueryHistory.

(** [(value, err)] results: [None] stands for [err != nil]. *)
Abbreviation result := option.

(** An open database: the result of the one query the program runs, each
    row with the result of its [Scan] into [(url, visitTime)]. *)
Record DB : Type := {
  db_Query : string -> result (list (result (string * float)))
}.

(** What lies outside the program.  [osascript] answers a script given
    the scripts run before it: an error, or (for [Enumerate]) the tabs its
    output parses to; the output of the closing scripts is not read. *)
Record Host : Type := {
  osascript : list Command -> Command -> result (list Tab);
  os_UserHomeDir : result string;
  filepath_Join : list string -> string;
  sql_Open : string -> string -> result DB;
  time_Now : time.Time;                (* handed to [time_AddDate] only *)
  time_AddDate : time.Time -> Z -> Z -> Z -> time.Time;  (* [t.AddDate(y, m, d)] *)
  int64_of_float64 : float -> Z        (* the conversion [int64(f)] *)
}.

(** The state the program's effects are recorded in. *)
Record World : Type := {
  issued : list Command;     (* scripts run so far, oldest first *)
  logged : list LogLine      (* log lines written so far, oldest first *)
}.

Definition World0 : World := {| issued := []; logged := [] |}.

Definition M (A : Type) : Type := World -> A * World.

Definition ret {A} (a : A) : M A := fun w => (a, w).

Definition bind {A B} (k : A -> M B) (m : M A) : M B :=
  fun w => let '(a, w') := m w in k a w'.

#[global] Instance M_ret : MRet M := @ret.
#[global] Instance M_bind : MBind M := @bind.

(** [exec.Command("osascript", "-e", script)] run to completion. *)
Definition run (h : Host) (c : Command) : M (result (list Tab)) :=
  fun w => (osascript h (issued w) c,
            {| issued := issued w ++ [c]; logged := logged w |}).

(** [log.Printf]. *)
Definition logPrintf (l : LogLine) : M unit :=
  fun w => (tt, {| issued := issued w; logged := logged w ++ [l] |}).

(** [for _, x := range xs { body }]. *)
Fixpoint forEach {A} (xs : list A) (body : A -> M unit) : M unit :=
  match xs with
  | [] => ret tt
  | x :: rest => body x ;; forEach rest body
  end.

(** ** The snapshot and the staleness classifier *)

(** The enumeration script is run, and its output split into tabs; the
    host hands over the tabs the output parses to, each built as by
    [rawTab]. *)
Definition getSafariTabsRaw (h : Host) : M (result (list Tab)) := run h Enumerate.

(** [time.Date(2001, 1, 1, 0, 0, 0, 0, time.UTC).Unix()]. *)
Definition cfAbsoluteTimeOffset : Z := 978307200.

Definition historyQuery : string :=
  "SELECT hi.url, MAX(hv.visit_time) as last_visit FROM history_items hi JOIN history_visits hv ON hi.id = hv.history_item GROUP BY hi.url".

(** The loop over [rows]: a row whose [Scan] fails is skipped. *)
Definition visitTimesOf (h : Host) (rows : list (result (string * float)))
    : gmap string time.Time :=
  foldl (fun (visitTimes : gmap string time.Time) row =>
           match row with
           | None => visitTimes
           | Some (url, visitTime) =>
               let unixTime := wrap64 (int64_of_float64 h visitTime + cfAbsoluteTimeOffset) in
               <[url := time.Unix unixTime 0]> visitTimes
           end)
        ∅ rows.

(** The body of the loop [for i := range tabs]. *)
Definition enrichTab (visitTimes : gmap string time.Time) (ageThreshold : time.Time)
    (tabs : list Tab) (i : nat) : list Tab :=
  match tabs !! i with
  | Some tab =>
      match visitTimes !! URL tab with
      | Some lastVisit =>
          <[i := set_IsOld (set_LastVisit tab lastVisit)
                           (time.Before lastVisit ageThreshold)]> tabs
      | None => <[i := set_IsOld tab true]> tabs
      end
  | None => tabs
  end.

Definition enrichWithVisitData (h : Host) (tabs : list Tab) (ageDays : Z)
    : M (list Tab) :=
  match os_UserHomeDir h with
  | None => logPrintf WarnHomeDir ;; ret tabs
  | Some homeDir =>
      let historyPath := filepath_Join h [homeDir; "Library"; "Safari"; "History.db"] in
      match sql_Open h "sqlite3" historyPath with
      | None => logPrintf WarnOpenHistory ;; ret tabs
      | Some db =>
          match db_Query db historyQuery with
          | None => logPrintf WarnQueryHistory ;; ret tabs
          | Some rows =>
              let visitTimes := visitTimesOf h rows in
              let ageThreshold := time_AddDate h (time_Now h) 0 0 (- ageDays) in
              ret (foldl (enrichTab visitTimes ageThreshold) tabs
                         (seq 0 (length tabs)))
          end
      end
  end.

Definition getSafariTabs (h : Host) (ageDays : Z)
    : M (result (list Tab * list Z)) :=
  r ← getSafariTabsRaw h;
  match r with
  | None => ret None
  | Some allTabs =>
      let '(tabs, emptyWindows) := filterPinnedTabs allTabs in
      tabs ← enrichWithVisitData h tabs ageDays;
      ret (Some (tabs, emptyWindows))
  end.

(** ** The closure reconciler *)

Record windowTab : Type := { window : Z; tab : Z; url : string }.

(** [sort.Slice(x, less)] and [sort.Sort]: Go's sort is not stable; the
    model is a merge sort on "[b] is not less than [a]".  What the claims
    use is that the result is a permutation ordered by [less], which
    fixes it up to elements [less] does not tell apart. *)
Definition inOrder {A} (less : A -> A -> bool) : relation A :=
  fun a b => less b a = false.

#[global] Instance inOrder_dec {A} (less : A -> A -> bool) (a b : A)
    : Decision (inOrder less a b) := decide (less b a = false).

Definition sort_Slice {A} (less : A -> A -> bool) (x : list A) : list A :=
  merge_sort (inOrder less) x.

(** The [less] function of the closing order. *)
Definition closeLess (a b : windowTab) : bool :=
  if negb (window a =? window b) then window a >? window b
  else tab a >? tab b.

(** [sort.Reverse(sort.IntSlice(x))]: [Less(i, j)] is [x[j] < x[i]]. *)
Definition reverseIntLess (a b : Z) : bool := b <? a.

(** The set of URLs to close. *)
Definition urlSet (tabsToClose : list Tab) : gmap string bool :=
  foldl (fun (urlsToClose : gmap string bool) tab => <[URL tab := true]> urlsToClose)
        ∅ tabsToClose.

(** The matching loop over the fresh snapshot: the state is the slice
    [tabsToCloseNow] and the map [urlsToClose]. *)
Definition matchStep (st : list windowTab * gmap string bool) (t : Tab)
    : list windowTab * gmap string bool :=
  let '(tabsToCloseNow, urlsToClose) := st in
  if getBool urlsToClose (URL t)
  then (tabsToCloseNow ++
          [{| window := WindowIndex t; tab := TabIndex t; url := URL t |}],
        delete (URL t) urlsToClose)
  else st.

Definition matchTabs (urlsToClose : gmap string bool) (currentTabs : list Tab)
    : list windowTab :=
  fst (foldl matchStep ([], urlsToClose) currentTabs).

Definition closeOneTab (h : Host) (wt : windowTab) : M unit :=
  r ← run h (CloseTab (tab wt) (window wt));
  match r with
  | None => logPrintf (WarnCloseTab (tab wt) (window wt))
  | Some _ => ret tt
  end.

Definition closeOneWindow (h : Host) (windowIdx : Z) : M unit :=
  r ← run h (CloseWindow windowIdx);
  match r with
  | None => logPrintf (WarnCloseWindow windowIdx)
  | Some _ => ret tt
  end.

Definition closeTabsAsync (h : Host) (tabsToClose : list Tab) (emptyWindows : list Z)
    : M closingCompleteMsg :=
  r ← getSafariTabsRaw h;
  match r with
  | None => logPrintf ErrGettingCurrentTabs ;; ret {| count := 0 |}
  | Some currentTabs =>
      let urlsToClose := urlSet tabsToClose in
      let tabsToCloseNow := matchTabs urlsToClose currentTabs in
      let tabsToCloseNow := sort_Slice closeLess tabsToCloseNow in
      forEach tabsToCloseNow (closeOneTab h) ;;
      let emptyWindows := sort_Slice reverseIntLess emptyWindows in
      forEach emptyWindows (closeOneWindow h) ;;
      ret {| count := Z.of_nat (length tabsToCloseNow) |}
  end.

(** ** Refreshing the list *)

Record tabsRefreshedMsg : Type := {
  refreshed_tabs : list Tab;           (* [tabs] *)
  refreshed_emptyWindows : list Z      (* [emptyWindows] *)
}.

(** The command [refreshTabsCmd(ageDays)] run to its message.  The line
    "Error refreshing tabs" it logs on failure is not among [LogLine]:
    the boolean returned with the message tells whether it was logged. *)
Definition refreshTabsCmd (ToLower : string -> string) (h : Host) (ageDays : Z)
    : M (tabsRefreshedMsg * bool) :=
  r ← getSafariTabs h ageDays;
  match r with
  | None =>
      ret ({| refreshed_tabs := []; refreshed_emptyWindows := [] |}, true)
  | Some (tabs, emptyWindows) =>
      let tabs := findDuplicates ToLower tabs in
      ret ({| refreshed_tabs := tabs; refreshed_emptyWindows := emptyWindows |}, false)
  end.

(** ** The interactive model

    The list widget and the progress bar come from a library: the model
    holds them as values of types [ListModel] and [ProgressModel], and
    [Update] uses the list through the operations of [ListOps]. *)

Module tui.

(** The verb [%d] of [fmt.Sprintf]: the decimal digits of an integer,
    after a minus sign if it is negative. *)
Definition digitChar (d : N) : ascii :=
  ascii_of_N (48 + d).

Fixpoint decimalDigits (fuel : nat) (n : N) (acc : string) : string :=
  match fuel with
  | O => acc
  | S fuel' =>
      let acc' := String (digitChar (n mod 10)) acc in
      if (n / 10 =? 0)%N then acc' else decimalDigits fuel' (n / 10)%N acc'
  end.

Definition formatInt (z : Z) : string :=
  match z with
  | Z0 => "0"
  | Zpos p => decimalDigits (Pos.size_nat p) (Npos p) ""
  | Zneg p => "-" +:+ decimalDigits (Pos.size_nat p) (Npos p) ""
  end.

(** An entry of the list widget: [item{tab, index}]. *)
Record item : Type := { item_tab : Tab; index : nat }.

(** The messages [Update] tells apart.  A key press is given by the string
    of its key, which is what [key.Matches] compares. *)
Inductive Msg : Type :=
  | WindowSizeMsg (Width Height : Z)
  | tabClosedMsg (idx total : Z)
  | closingComplete (msg : closingCompleteMsg)
  | tabsRefreshed (msg : tabsRefreshedMsg)
  | KeyMsg (key : string)
  | OtherMsg.

(** The commands [Update] returns; [NoCmd] is [nil]. *)
Inductive Cmd (ListCmd : Type) : Type :=
  | NoCmd
  | Quit
  | RefreshTabs (ageDays : Z)
  | CloseTabs (tabsToClose : list Tab) (emptyWindows : list Z)
  | ListCommand (c : ListCmd).

Arguments NoCmd {ListCmd}.
Arguments Quit {ListCmd}.
Arguments RefreshTabs {ListCmd} ageDays.
Arguments CloseTabs {ListCmd} tabsToClose emptyWindows.
Arguments ListCommand {ListCmd} c.

(** The methods of [list.Model] that [Update] calls. *)
Record ListOps (ListModel ListCmd : Type) : Type := {
  SetWidth : ListModel -> Z -> ListModel;
  SetHeight : ListModel -> Z -> ListModel;
  SetItems : ListModel -> list item -> ListModel;
  CursorDown : ListModel -> ListModel;
  CursorUp : ListModel -> ListModel;
  SelectedItem : ListModel -> option item;
  ListUpdate : ListModel -> Msg -> ListModel * option ListCmd
}.

Arguments SetWidth {ListModel ListCmd} _ _ _.
Arguments SetHeight {ListModel ListCmd} _ _ _.
Arguments SetItems {ListModel ListCmd} _ _ _.
Arguments CursorDown {ListModel ListCmd} _ _.
Arguments CursorUp {ListModel ListCmd} _ _.
Arguments SelectedItem {ListModel ListCmd} _ _.
Arguments ListUpdate {ListModel ListCmd} _ _ _.

Record model (ListModel ProgressModel : Type) : Type := mkModel {
  lst : ListModel;                       (* [list] *)
  tabs : list Tab;
  quitting : bool;
  closing : bool;
  ageDays : Z;
  progress : ProgressModel;
  closingTotal : Z;
  closingCurrent : Z;
  closingDone : bool;
  message : string;
  emptyPinnedOnlyWindows : list Z
}.

Arguments mkModel {ListModel ProgressModel} _ _ _ _ _ _ _ _ _ _ _.
Arguments lst {ListModel ProgressModel} _.
Arguments tabs {ListModel ProgressModel} _.
Arguments quitting {ListModel ProgressModel} _.
Arguments closing {ListModel ProgressModel} _.
Arguments ageDays {ListModel ProgressModel} _.
Arguments progress {ListModel ProgressModel} _.
Arguments closingTotal {ListModel ProgressModel} _.
Arguments closingCurrent {ListModel ProgressModel} _.
Arguments closingDone {ListModel ProgressModel} _.
Arguments message {ListModel ProgressModel} _.
Arguments emptyPinnedOnlyWindows {ListModel ProgressModel} _.

Section Update.

Context {ListModel ListCmd ProgressModel : Type}.
Variable ops : ListOps ListModel ListCmd.

(** [items[idx] = item{tab: tab, index: idx}] for each tab. *)
Definition itemsOf (ts : list Tab) : list item :=
  imap (fun idx t => {| item_tab := t; index := idx |}) ts.

(** [key.Matches(msg, key.NewBinding(key.WithKeys(keys...)))]. *)
Definition keyMatches (key : string) (keys : list string) : bool :=
  bool_decide (key ∈ keys).

(** [for i := range m.tabs { if p(m.tabs[i]) { m.tabs[i].Selected = v } }]. *)
Definition setSelectedWhere (p : Tab -> bool) (v : bool) (ts : list Tab) : list Tab :=
  foldl (fun ts i =>
           match ts !! i with
           | Some t => if p t then <[i := set_Selected t v]> ts else ts
           | None => ts
           end)
        ts (seq 0 (length ts)).

Definition isDuplicate (t : Tab) : bool :=
  match DuplicateOf t with Some _ => true | None => false end.

(** The model with a new list of tabs, shown in the list widget. *)
Definition withTabs (m : model ListModel ProgressModel) (ts : list Tab)
    : model ListModel ProgressModel :=
  mkModel (SetItems ops (lst m) (itemsOf ts)) ts (quitting m) (closing m)
          (ageDays m) (progress m) (closingTotal m) (closingCurrent m)
          (closingDone m) (message m) (emptyPinnedOnlyWindows m).

Definition withList (m : model ListModel ProgressModel) (l : ListModel)
    : model ListModel ProgressModel :=
  mkModel l (tabs m) (quitting m) (closing m) (ageDays m) (progress m)
          (closingTotal m) (closingCurrent m) (closingDone m) (message m)
          (emptyPinnedOnlyWindows m).

(** The last statements of [Update]: the message goes to the list. *)
Definition passToList (m : model ListModel ProgressModel) (msg : Msg)
    : model ListModel ProgressModel * Cmd ListCmd :=
  let '(l, cmd) := ListUpdate ops (lst m) msg in
  (withList m l,
   match cmd with Some c => ListCommand c | None => NoCmd end).

(** [Update]; [None] stands for a run-time panic (an index out of
    range). *)
Definition Update (m : model ListModel ProgressModel) (msg : Msg)
    : result (model ListModel ProgressModel * Cmd ListCmd) :=
  match msg with
  | WindowSizeMsg Width Height =>
      Some (withList m (SetHeight ops (SetWidth ops (lst m) Width) (Height - 4)),
            NoCmd)
  | tabClosedMsg idx total =>
      Some (mkModel (lst m) (tabs m) (quitting m) (closing m) (ageDays m)
                    (progress m) (closingTotal m) idx (closingDone m)
                    (message m) (emptyPinnedOnlyWindows m),
            NoCmd)
  | closingComplete msg =>
      Some (mkModel (lst m) (tabs m) (quitting m) (closing m) (ageDays m)
                    (progress m) (closingTotal m) (closingCurrent m) true
                    ("Successfully closed " +:+ formatInt (count msg)
                       +:+ " tabs. Refreshing...")
                    (emptyPinnedOnlyWindows m),
            RefreshTabs (ageDays m))
  | tabsRefreshed msg =>
      Some (mkModel (SetItems ops (lst m) (itemsOf (refreshed_tabs msg)))
                    (refreshed_tabs msg) (quitting m) false (ageDays m)
                    (progress m) 0 0 false
                    "Tabs refreshed. Press 'q' to quit."
                    (refreshed_emptyWindows msg),
            NoCmd)
  | KeyMsg key =>
      if closing m && negb (closingDone m) then Some (m, NoCmd)
      else if keyMatches key ["q"; "ctrl+c"] then
        Some (mkModel (lst m) (tabs m) true (closing m) (ageDays m) (progress m)
                      (closingTotal m) (closingCurrent m) (closingDone m)
                      (message m) (emptyPinnedOnlyWindows m),
              Quit)
      else if keyMatches key ["j"; "down"] then
        Some (withList m (CursorDown ops (lst m)), NoCmd)
      else if keyMatches key ["k"; "up"] then
        Some (withList m (CursorUp ops (lst m)), NoCmd)
      else if keyMatches key [" "; "enter"] then
        match SelectedItem ops (lst m) with
        | Some i =>
            match tabs m !! index i with
            | Some t =>
                Some (withTabs m (<[index i := set_Selected t (negb (Selected t))]>
                                    (tabs m)),
                      NoCmd)
            | None => None
            end
        | None => Some (m, NoCmd)
        end
      else if keyMatches key ["c"] then
        let tabsToClose := filter (fun t => Selected t = true) (tabs m) in
        if bool_decide (length tabsToClose = 0%nat) then
          Some (mkModel (lst m) (tabs m) (quitting m) (closing m) (ageDays m)
                        (progress m) (closingTotal m) (closingCurrent m)
                        (closingDone m) "No tabs selected for closing."
                        (emptyPinnedOnlyWindows m),
                NoCmd)
        else
          Some (mkModel (lst m) (tabs m) (quitting m) true (ageDays m)
                        (progress m) (Z.of_nat (length tabsToClose)) 0 false
                        (message m) (emptyPinnedOnlyWindows m),
                CloseTabs tabsToClose (emptyPinnedOnlyWindows m))
      else if keyMatches key ["a"] then
        Some (withTabs m (setSelectedWhere isDuplicate true (tabs m)), NoCmd)
      else if keyMatches key ["n"] then
        Some (withTabs m (setSelectedWhere isDuplicate false (tabs m)), NoCmd)
      else if keyMatches key ["o"] then
        Some (withTabs m (setSelectedWhere IsOld true (tabs m)), NoCmd)
      else Some (passToList m msg)
  | OtherMsg => Some (passToList m msg)
  end.

End Update.

End tui.

(** * Reference definitions used to state the properties *)

(** ** The edit-distance recurrence

    [lev s1 s2 i j] is the classic unit-cost distance between the first
    [i] bytes of [s1] and the first [j] bytes of [s2], by its recurrence;
    the matrix of [calculateSimilarity] is shown to hold these values. *)
Fixpoint lev (s1 s2 : string) (i : nat) : nat -> Z :=
  match i with
  | O => fun j => Z.of_nat j
  | S i' =>
      fix row (j : nat) : Z :=
        match j with
        | O => Z.of_nat (S i')
        | S j' =>
            min [ lev s1 s2 i' (S j') + 1;
                  row j' + 1;
                  lev s1 s2 i' j'
                  + (if bool_decide (byteAt s1 i' = byteAt s2 j') then 0 else 1) ]
        end
  end.

(** A matrix of [len1+1] rows of [len2+1] cells. *)
Definition shaped (len1 len2 : nat) (matrix : list (list Z)) : Prop :=
  length matrix = S len1 /\
  forall i row, matrix !! i = Some row -> length row = S len2.

(** The cells filled so far when the loops are at row [i], after column
    [k]: the rows above [i], row [i] up to column [k], and column 0. *)
Definition filled (s1 s2 : string) (len1 len2 : nat) (matrix : list (list Z))
    (i k : nat) : Prop :=
  shaped len1 len2 matrix /\
  forall i' j', (i' <= len1)%nat -> (j' <= len2)%nat ->
    ((i' < i)%nat \/ (i' = i /\ (j' <= k)%nat) \/ j' = O) ->
    get2 matrix i' j' = lev s1 s2 i' j'.

(** ** Duplicates *)

(** Tab URL [u] matches the earlier URL [v]: equal, or similar. *)
Definition matches (ToLower : string -> string) (u v : string) : Prop :=
  u = v \/ areSimilarURLs ToLower u v = true.

(** No tab before index [j] matches the tab at [i]. *)
Definition noMatchBefore (ToLower : string -> string) (tabs : list Tab)
    (i j : nat) : Prop :=
  forall k tab_i tab_k, (k < j)%nat ->
    tabs !! i = Some tab_i -> tabs !! k = Some tab_k ->
    ~ matches ToLower (URL tab_i) (URL tab_k).

(** [j] is the least index before [i] whose tab matches the tab at [i]. *)
Definition leastMatch (ToLower : string -> string) (tabs : list Tab)
    (i j : nat) : Prop :=
  (j < i)%nat /\
  (exists tab_i tab_j, tabs !! i = Some tab_i /\ tabs !! j = Some tab_j /\
     matches ToLower (URL tab_i) (URL tab_j)) /\
  noMatchBefore ToLower tabs i j.

(** The tab [findDuplicates] leaves at index [i]. *)
Definition annotated (ToLower : string -> string) (tabs : list Tab) (i : nat)
    (tab_i : Tab) : Tab :=
  match scanEarlier ToLower (URL tab_i) (take i tabs) 0 with
  | Some idx => set_Selected (set_DuplicateOf tab_i idx) true
  | None => tab_i
  end.

(** A small tab list for the examples: the third tab repeats the URL of
    the first, the fourth is similar to the second. *)
Definition exampleTabs : list Tab :=
  [ rawTab 1 1 "A" "https://a.com/x";
    rawTab 1 2 "B" "https://site.com/page?id=1";
    rawTab 2 1 "A" "https://a.com/x";
    rawTab 2 2 "B" "https://site.com/page?id=2" ].

(** ** Pinned tabs *)

(** The URL [u] is classified pinned on the snapshot [allTabs]. *)
Definition isPinned (allTabs : list Tab) (u : string) : bool :=
  getBool (pinnedURLs allTabs) u.

(** The tabs with URL [u] at tab index [p]. *)
Definition tabsAt (allTabs : list Tab) (u : string) (p : Z) : list Tab :=
  filter (fun t => URL t = u /\ TabIndex t = p) allTabs.

(** The windows that show [u] at tab index [p]. *)
Definition windowsAt (allTabs : list Tab) (u : string) (p : Z) : gset Z :=
  list_to_set (WindowIndex <$> tabsAt allTabs u p).

(** The windows in which [u] is a pin candidate: at an index up to 4. *)
Definition candidateWindows (allTabs : list Tab) (u : string) : gset Z :=
  list_to_set (WindowIndex <$> filter (fun t => URL t = u /\ TabIndex t <= 4) allTabs).

(** A snapshot has one tab per (window, tab index) pair. *)
Definition position (t : Tab) : Z * Z := (WindowIndex t, TabIndex t).

Definition WellFormed (allTabs : list Tab) : Prop := NoDup (position <$> allTabs).

(** [urlPositionCount[u][p]], when both keys are present. *)
Definition countEntry (m : gmap string (gmap Z Z)) (u : string) (p : Z) : option Z :=
  m !! u ≫= fun positionCounts => positionCounts !! p.

(** One URL in the first slot of one window, the second slot of another
    and the third slot of a third. *)
Definition scatteredTabs : list Tab :=
  [ rawTab 1 1 "Mail" "https://mail.example/";
    rawTab 2 1 "News" "https://news.example/";
    rawTab 2 2 "Mail" "https://mail.example/";
    rawTab 3 1 "Docs" "https://docs.example/";
    rawTab 3 2 "Wiki" "https://wiki.example/";
    rawTab 3 3 "Mail" "https://mail.example/" ].

(** One URL in the first slot of three windows. *)
Definition alignedTabs : list Tab :=
  [ rawTab 1 1 "Mail" "https://mail.example/";
    rawTab 1 2 "News" "https://news.example/";
    rawTab 2 1 "Mail" "https://mail.example/";
    rawTab 3 1 "Mail" "https://mail.example/";
    rawTab 3 2 "Wiki" "https://wiki.example/" ].




(** ** Staleness *)

(** The rows of the history store when it can be read: the home
    directory is known, the database opens and the query runs. *)
Definition historyRows (h : Host) : result (list (result (string * float))) :=
  homeDir ← os_UserHomeDir h;
  db ← sql_Open h "sqlite3" (filepath_Join h [homeDir; "Library"; "Safari"; "History.db"]);
  db_Query db historyQuery.

(** The tab the enrichment loop leaves in place of [tab]. *)
Definition enriched (visitTimes : gmap string time.Time) (ageThreshold : time.Time)
    (tab : Tab) : Tab :=
  match visitTimes !! URL tab with
  | Some lastVisit =>
      set_IsOld (set_LastVisit tab lastVisit) (time.Before lastVisit ageThreshold)
  | None => set_IsOld tab true
  end.

(** The instant [t] lies strictly before [u]: fewer seconds, or the same
    seconds and fewer nanoseconds. *)
Definition earlier (t u : time.Time) : Prop :=
  time.ext t < time.ext u \/
  (time.ext t = time.ext u /\ time.wall t < time.wall u).

(** The history store as the specification describes it: the last visit
    recorded for a URL, absent when there is none or when the store
    cannot be read. *)
Definition historyLookup (h : Host) (u : string) : option time.Time :=
  rows ← historyRows h; visitTimesOf h rows !! u.

(** [int64(f)] for a float within the range of [int64]: truncation
    towards zero (used by the example hosts). *)
Definition truncate (f : float) : Z :=
  match FloatOps.Prim2SF f with
  | SpecFloat.S754_finite s m e =>
      let v := if 0 <=? e then Z.pos m * 2 ^ e else Z.pos m / 2 ^ (- e) in
      if s then - v else v
  | _ => 0
  end.

(** [AddDate(0, 0, days)] in UTC, where a day is 86400 seconds. *)
Definition addDaysUTC (t : time.Time) (years months days : Z) : time.Time :=
  time.mkTime (time.wall t) (time.ext t + days * 86400).

(** A host whose history holds two of the example URLs: one visited
    10 days before [time_Now], one exactly 30 days before. *)
Definition exampleDB : DB :=
  {| db_Query := fun _ =>
       Some [ Some ("https://a.com/x", 720828800.75%float);
              None;
              Some ("https://site.com/page?id=1", 719100800%float) ] |}.

Definition exampleHost : Host :=
  {| osascript := fun _ c =>
       match c with
       | Enumerate => Some exampleTabs
       | CloseTab t w => if (t =? 2) && (w =? 2) then None else Some []
       | CloseWindow _ => Some []
       end;
     os_UserHomeDir := Some "/Users/me";
     filepath_Join := fun elems => String.concat "/" elems;
     sql_Open := fun _ path =>
       if bool_decide (path = "/Users/me/Library/Safari/History.db")
       then Some exampleDB else None;
     time_Now := time.Unix 1700000000 0;
     time_AddDate := addDaysUTC;
     int64_of_float64 := truncate |}.

(** The same host, its history holding one visit dated some 292
    billion years after 2001. *)
Definition farFutureHost : Host :=
  {| osascript := osascript exampleHost;
     os_UserHomeDir := Some "/Users/me";
     filepath_Join := filepath_Join exampleHost;
     sql_Open := fun _ _ =>
       Some {| db_Query := fun _ =>
                 Some [ Some ("https://a.com/x", 9223372000000000000%float) ] |};
     time_Now := time_Now exampleHost;
     time_AddDate := addDaysUTC;
     int64_of_float64 := truncate |}.

(** The same host with a history database that cannot be opened. *)
Definition noHistoryHost : Host :=
  {| osascript := osascript exampleHost;
     os_UserHomeDir := Some "/Users/me";
     filepath_Join := filepath_Join exampleHost;
     sql_Open := fun _ _ => None;
     time_Now := time_Now exampleHost;
     time_AddDate := addDaysUTC;
     int64_of_float64 := truncate |}.


(** ** Closing *)

(** The script that closes the tab at a matched position. *)
Definition closeTabCmd (wt : windowTab) : Command := CloseTab (tab wt) (window wt).

(** The entry the matching loop records for a live tab. *)
Definition matchedAt (t : Tab) : windowTab :=
  {| window := WindowIndex t; tab := TabIndex t; url := URL t |}.

(** Window descending, then tab descending. *)
Definition descending : relation windowTab :=
  fun a b => window a > window b \/ (window a = window b /\ tab a >= tab b).

(** The same order, on the scripts. *)
Definition cmdDescending : relation Command :=
  fun c1 c2 =>
    match c1, c2 with
    | CloseTab t1 w1, CloseTab t2 w2 => w1 > w2 \/ (w1 = w2 /\ t1 >= t2)
    | _, _ => True
    end.

Definition isClose (c : Command) : bool :=
  match c with
  | Enumerate => false
  | CloseTab _ _ | CloseWindow _ => true
  end.

(** The tab at index [i] of the snapshot is the first one with its URL. *)
Definition firstWithURL (currentTabs : list Tab) (i : nat) (t : Tab) : Prop :=
  currentTabs !! i = Some t /\
  forall j t', (j < i)%nat -> currentTabs !! j = Some t' -> URL t' <> URL t.

(** The snapshot and the selection of the specification's ordering
    example: matched tabs at (window 1, tab 5), (window 1, tab 2) and
    (window 2, tab 1). *)
Definition orderSnapshot : list Tab :=
  [ rawTab 1 1 "keep" "https://keep.example/";
    rawTab 1 2 "b" "https://b.example/";
    rawTab 1 5 "a" "https://a.example/";
    rawTab 2 1 "c" "https://c.example/";
    rawTab 2 2 "b again" "https://b.example/" ].

Definition orderSelection : list Tab :=
  [ rawTab 1 5 "a" "https://a.example/";
    rawTab 1 2 "b" "https://b.example/";
    rawTab 2 1 "c" "https://c.example/" ].

(** Safari with that snapshot; closing tab 5 of window 1 fails. *)
Definition orderHost : Host :=
  {| osascript := fun _ c =>
       match c with
       | Enumerate => Some orderSnapshot
       | CloseTab t w => if (t =? 5) && (w =? 1) then None else Some []
       | CloseWindow _ => Some []
       end;
     os_UserHomeDir := None;
     filepath_Join := fun elems => String.concat "/" elems;
     sql_Open := fun _ _ => None;
     time_Now := time.Unix 1700000000 0;
     time_AddDate := addDaysUTC;
     int64_of_float64 := truncate |}.

(** Safari not reachable: every script fails. *)
Definition unreachableHost : Host :=
  {| osascript := fun _ _ => None;
     os_UserHomeDir := None;
     filepath_Join := fun elems => String.concat "/" elems;
     sql_Open := fun _ _ => None;
     time_Now := time.Unix 1700000000 0;
     time_AddDate := addDaysUTC;
     int64_of_float64 := truncate |}.

(** The same Safari, with every closing script failing. *)
Definition refusingHost : Host :=
  {| osascript := fun _ c =>
       match c with
       | Enumerate => Some orderSnapshot
       | _ => None
       end;
     os_UserHomeDir := None;
     filepath_Join := fun elems => String.concat "/" elems;
     sql_Open := fun _ _ => None;
     time_Now := time.Unix 1700000000 0;
     time_AddDate := addDaysUTC;
     int64_of_float64 := truncate |}.


(** ** Windows *)

(** The tabs of window [w], in snapshot order. *)
Definition tabsInWindow (allTabs : list Tab) (w : Z) : list Tab :=
  filter (fun t => WindowIndex t = w) allTabs.

(** The windows of a snapshot. *)
Definition allWindows (allTabs : list Tab) : gset Z :=
  list_to_set (WindowIndex <$> allTabs).

(** The per-window counting loops of [filterPinnedTabs], for the tabs
    selected by [sel]. *)
Definition countPerWindow (sel : Tab -> bool) (allTabs : list Tab) : gmap Z Z :=
  foldl (fun m tab => if sel tab then incr m (WindowIndex tab) else m) ∅ allTabs.




(** ** URL variants *)

(** The four spellings of one address: either scheme, with or without a
    leading [www.]. *)
Definition variants (rest : string) : list string :=
  [ "http://" +:+ rest; "http://www." +:+ rest;
    "https://" +:+ rest; "https://www." +:+ rest ].

(** ** History rows *)

(** The visit time the program derives from the [visit_time] column. *)
Definition visitTimeOf (h : Host) (visitTime : float) : time.Time :=
  time.Unix (wrap64 (int64_of_float64 h visitTime + cfAbsoluteTimeOffset)) 0.

(** Row [k] is the last row that scans successfully with URL [u]. *)
Definition lastRowFor (rows : list (result (string * float))) (u : string)
    (k : nat) (visitTime : float) : Prop :=
  rows !! k = Some (Some (u, visitTime)) /\
  forall k' f, (k < k')%nat -> rows !! k' <> Some (Some (u, f)).




(** ** The log of a close operation *)

(** The warning logged when a closing script fails. *)
Definition warningOf (c : Command) : list LogLine :=
  match c with
  | CloseTab t w => [WarnCloseTab t w]
  | CloseWindow w => [WarnCloseWindow w]
  | Enumerate => []
  end.

(** The warnings for the scripts of [cmds] that fail when run in order
    after the scripts [past]. *)
Fixpoint failures (h : Host) (past cmds : list Command) : list LogLine :=
  match cmds with
  | [] => []
  | c :: rest =>
      (match osascript h past c with None => warningOf c | Some _ => [] end)
      ++ failures h (past ++ [c]) rest
  end.

(** ** The interactive model *)

(** A key press is acted upon: no close operation is in flight. *)
Definition unlocked {L P} (m : tui.model L P) : Prop :=
  tui.closing m && negb (tui.closingDone m) = false.

(** What the selection loops of [Update] compute, tab by tab. *)
Definition selectWhere (p : Tab -> bool) (v : bool) (ts : list Tab) : list Tab :=
  (fun t => if p t then set_Selected t v else t) <$> ts.

(** A list widget for the examples: the entries and the cursor. *)
Definition simpleList : tui.ListOps (list tui.item * nat) Empty_set :=
  {| tui.SetWidth := fun l _ => l;
     tui.SetHeight := fun l _ => l;
     tui.SetItems := fun l items => (items, l.2);
     tui.CursorDown := fun l => (l.1, S l.2);
     tui.CursorUp := fun l => (l.1, pred l.2);
     tui.SelectedItem := fun l => l.1 !! l.2;
     tui.ListUpdate := fun l _ => (l, None) |}.

(** The model [main] builds from the example list, with the cursor on
    the third entry. *)
Definition exampleModel : tui.model (list tui.item * nat) unit :=
  tui.mkModel (tui.itemsOf (findDuplicates strings.ToLowerASCII exampleTabs), 2%nat)
              (findDuplicates strings.ToLowerASCII exampleTabs)
              false false 30 tt 0 0 false "" [].



(** * Properties *)

(** ** Loops *)

Lemma foldl_seq_ind {A} (P : nat -> A -> Prop) (f : A -> nat -> A) (n : nat) :
  forall (start : nat) (a : A),
    P start a ->
    (forall k a, (start <= k < start + n)%nat -> P k a -> P (S k) (f a k)) ->
    P (start + n)%nat (foldl f a (seq start n)).
Proof.
  induction n as [|n IH]; intros start a H0 Hstep; simpl.
  - by rewrite Nat.add_0_r.
  - replace (start + S n)%nat with (S start + n)%nat by lia.
    apply IH.
    + apply Hstep; [lia | done].
    + intros k b Hk. apply Hstep. lia.
Qed.

(** ** The edit distance *)

Lemma min3_swap (a b c : Z) : min [a; b; c] = min [b; a; c].
Proof.
  cbv [min foldl].
  destruct (Z.ltb_spec a b), (Z.ltb_spec b a);
    repeat match goal with
           | |- context [?x <? ?y] => destruct (Z.ltb_spec x y)
           end; lia.
Qed.

Lemma lev_0_l s1 s2 j : lev s1 s2 0 j = Z.of_nat j.
Proof. done. Qed.

Lemma lev_0_r s1 s2 i : lev s1 s2 i 0 = Z.of_nat i.
Proof. by destruct i. Qed.

Lemma lev_S_S s1 s2 i j :
  lev s1 s2 (S i) (S j) =
  min [ lev s1 s2 i (S j) + 1;
        lev s1 s2 (S i) j + 1;
        lev s1 s2 i j + (if bool_decide (byteAt s1 i = byteAt s2 j) then 0 else 1) ].
Proof. done. Qed.

Lemma lev_sym s1 s2 i : forall j, lev s1 s2 i j = lev s2 s1 j i.
Proof.
  induction i as [|i IHi]; intros j.
  - by rewrite lev_0_l, lev_0_r.
  - induction j as [|j IHj].
    + by rewrite lev_0_l, lev_0_r.
    + rewrite !lev_S_S, min3_swap, IHj, !IHi.
      by rewrite (bool_decide_ext (byteAt s1 i = byteAt s2 j)
                                  (byteAt s2 j = byteAt s1 i)).
Qed.

(** *** The matrix holds the recurrence *)

Lemma get2_set2_eq len1 len2 matrix i j v :
  shaped len1 len2 matrix -> (i <= len1)%nat -> (j <= len2)%nat ->
  get2 (set2 matrix i j v) i j = v.
Proof.
  intros [Hlen Hrows] Hi Hj. unfold get2, set2.
  rewrite list_lookup_alter_eq.
  destruct (lookup_lt_is_Some_2 matrix i) as [row Hrow]; [lia|].
  rewrite Hrow; simpl.
  rewrite list_lookup_insert_eq; [done|].
  rewrite (Hrows _ _ Hrow). lia.
Qed.

Lemma get2_set2_ne matrix i j v i' j' :
  i <> i' \/ j <> j' -> get2 (set2 matrix i j v) i' j' = get2 matrix i' j'.
Proof.
  intros Hne. unfold get2, set2.
  destruct (decide (i = i')) as [<-|Hi].
  - rewrite list_lookup_alter_eq.
    destruct (matrix !! i) as [row|]; simpl; [|done].
    rewrite list_lookup_insert_ne; [done|]. by destruct Hne.
  - by rewrite list_lookup_alter_ne.
Qed.

Lemma shaped_set2 len1 len2 matrix i j v :
  shaped len1 len2 matrix -> shaped len1 len2 (set2 matrix i j v).
Proof.
  intros [Hlen Hrows]. split; unfold set2.
  - by rewrite length_alter.
  - intros i' row. rewrite list_lookup_alter.
    case_decide as Hi; [subst i'|apply Hrows].
    destruct (matrix !! i) as [row'|] eqn:Hrow; simpl; [|done].
    intros [= <-]. rewrite length_insert. by apply (Hrows i).
Qed.

Lemma initMatrix_filled s1 s2 len1 len2 :
  filled s1 s2 len1 len2 (initMatrix len1 len2) 0 len2.
Proof.
  unfold initMatrix. rewrite length_replicate.
  set (rows := foldl _ _ (seq 0 (S len1))).
  (* first loop: every row allocated, column 0 set *)
  assert (Hrows : length rows = S len1 /\
            forall i, (i < S len1)%nat ->
              rows !! i = Some (<[0%nat := Z.of_nat i]> (replicate (S len2) 0))).
  { pose proof (foldl_seq_ind
      (fun k (m : list (list Z)) => length m = S len1 /\
         forall i, (i < k)%nat ->
           m !! i = Some (<[0%nat := Z.of_nat i]> (replicate (S len2) 0)))
      (fun matrix i => set2 (<[i := replicate (S len2) 0]> matrix) i 0 (Z.of_nat i))
      (S len1) 0%nat (replicate (S len1) [])) as H.
    apply H; clear H.
    - split; [by rewrite length_replicate | lia].
    - intros k m Hk [Hlen Hm]. split.
      + unfold set2. by rewrite length_alter, length_insert.
      + intros i Hi. unfold set2.
        destruct (decide (i = k)) as [->|Hne].
        * rewrite list_lookup_alter_eq, list_lookup_insert_eq by lia. done.
        * rewrite list_lookup_alter_ne, list_lookup_insert_ne by done.
          apply Hm. lia. }
  destruct Hrows as [Hlen Hrows].
  assert (Hshape : shaped len1 len2 rows).
  { split; [done|]. intros i row Hrow.
    assert (i < S len1)%nat as Hi by (rewrite <- Hlen; by eapply lookup_lt_Some).
    rewrite (Hrows i Hi) in Hrow. injection Hrow as <-.
    simpl. by rewrite length_replicate. }
  assert (Hcol0 : forall i, (i <= len1)%nat -> get2 rows i 0 = Z.of_nat i).
  { intros i Hi. unfold get2. rewrite Hrows by lia. done. }
  rewrite (Hrows 0%nat) by lia.
  replace (length (default [] (Some (<[0%nat := Z.of_nat 0]> (replicate (S len2) 0)))))
    with (S len2) by (simpl; by rewrite length_replicate).
  (* second loop: row 0 set *)
  pose proof (foldl_seq_ind
    (fun k (m : list (list Z)) => shaped len1 len2 m /\
       (forall i, (i <= len1)%nat -> get2 m i 0 = Z.of_nat i) /\
       (forall j, (j < k)%nat -> get2 m 0 j = Z.of_nat j))
    (fun matrix j => set2 matrix 0 j (Z.of_nat j))
    (S len2) 0%nat rows) as H.
  simpl Nat.add in H.
  destruct H as (Hs & Hc & Hr).
  - split; [done|]. split; [done|]. lia.
  - intros k m Hk (Hs & Hc & Hr). split; [by apply shaped_set2|]. split.
    + intros i Hi. destruct (decide (i = 0%nat /\ k = 0%nat)) as [[-> ->]|Hne].
      * erewrite get2_set2_eq; [done|done|lia|lia].
      * rewrite get2_set2_ne by lia. by apply Hc.
    + intros j Hj. destruct (decide (j = k)) as [->|Hne].
      * erewrite get2_set2_eq; [done|done|lia|lia].
      * rewrite get2_set2_ne by lia. apply Hr. lia.
  - split; [done|]. intros i' j' Hi' Hj' [Hlt | [[-> _] | ->]].
    + lia.
    + rewrite lev_0_l. apply Hr. lia.
    + rewrite lev_0_r. by apply Hc.
Qed.

Lemma fillCell_filled s1 s2 len1 len2 matrix i k :
  (i < len1)%nat -> (k < len2)%nat ->
  filled s1 s2 len1 len2 matrix (S i) k ->
  filled s1 s2 len1 len2 (fillCell s1 s2 matrix (S i) (S k)) (S i) (S k).
Proof.
  intros Hi Hk [Hshape Hcells]. split; [by apply shaped_set2|].
  intros i' j' Hi' Hj' Hwhere. unfold fillCell.
  destruct (decide (i' = S i /\ j' = S k)) as [[-> ->]|Hne].
  - erewrite get2_set2_eq; [|done|lia|lia].
    replace (S i - 1)%nat with i by lia. replace (S k - 1)%nat with k by lia.
    rewrite lev_S_S, !Hcells by lia. done.
  - rewrite get2_set2_ne by lia. apply Hcells; lia.
Qed.

Lemma fillMatrix_filled s1 s2 len1 len2 :
  filled s1 s2 len1 len2
         (fillMatrix s1 s2 len1 len2 (initMatrix len1 len2)) len1 len2.
Proof.
  unfold fillMatrix.
  pose proof (foldl_seq_ind
    (fun i m => filled s1 s2 len1 len2 m (i - 1) len2)
    (fun matrix i =>
       foldl (fun matrix j => fillCell s1 s2 matrix i j) matrix (seq 1 len2))
    len1 1%nat (initMatrix len1 len2)) as H.
  cbv beta in H. replace (1 + len1 - 1)%nat with len1 in H by lia.
  apply H; clear H.
  - apply initMatrix_filled.
  - intros i m Hi Hm.
    replace (S i - 1)%nat with i by lia.
    pose proof (foldl_seq_ind
      (fun j m => filled s1 s2 len1 len2 m i (j - 1))
      (fun matrix j => fillCell s1 s2 matrix i j)
      len2 1%nat m) as H.
    cbv beta in H. replace (1 + len2 - 1)%nat with len2 in H by lia.
    apply H; clear H.
    + destruct Hm as [Hshape Hcells]. split; [done|].
      intros i' j' Hi' Hj' Hwhere. apply Hcells; lia.
    + intros j m' Hj Hm'.
      destruct i as [|i]; [lia|]. destruct j as [|j]; [lia|].
      replace (S (S j) - 1)%nat with (S j) by lia.
      replace (S j - 1)%nat with j in Hm' by lia.
      apply fillCell_filled; [lia|lia|done].
Qed.

(** The matrix loops compute the recurrence. *)
Lemma levenshtein_lev s1 s2 :
  levenshtein s1 s2 = lev s1 s2 (String.length s1) (String.length s2).
Proof.
  unfold levenshtein.
  destruct (fillMatrix_filled s1 s2 (String.length s1) (String.length s2))
    as [_ Hcells].
  apply Hcells; lia.
Qed.

Lemma levenshtein_sym s1 s2 : levenshtein s1 s2 = levenshtein s2 s1.
Proof. rewrite !levenshtein_lev. apply lev_sym. Qed.

Lemma max_sym a b : max a b = max b a.
Proof.
  unfold max. destruct (Z.gtb_spec a b), (Z.gtb_spec b a); lia.
Qed.

Lemma calculateSimilarity_sym ToLower s1 s2 :
  calculateSimilarity ToLower s1 s2 = calculateSimilarity ToLower s2 s1.
Proof.
  unfold calculateSimilarity.
  rewrite (bool_decide_ext (ToLower s1 = ToLower s2) (ToLower s2 = ToLower s1))
    by done.
  case_bool_decide; [done|].
  rewrite orb_comm, levenshtein_sym, max_sym. done.
Qed.

(** C10. [areSimilarURLs] is symmetric: swapping the two URLs gives the
    same answer, whatever case mapping [strings.ToLower] is. *)
Theorem areSimilarURLs_symmetric (ToLower : string -> string) (u1 u2 : string) :
  areSimilarURLs ToLower u1 u2 = areSimilarURLs ToLower u2 u1.
Proof.
  unfold areSimilarURLs.
  rewrite (orb_comm (bool_decide (extractDomain ToLower u1 = ""))).
  destruct (bool_decide (extractDomain ToLower u2 = "")
            || bool_decide (extractDomain ToLower u1 = "")); [done|].
  rewrite (bool_decide_ext (extractDomain ToLower u1 = extractDomain ToLower u2)
                           (extractDomain ToLower u2 = extractDomain ToLower u1))
    by done.
  destruct (negb _); [done|].
  rewrite (bool_decide_ext (extractPath u1 = extractPath u2)
                           (extractPath u2 = extractPath u1)) by done.
  case_bool_decide; [done|].
  by rewrite calculateSimilarity_sym.
Qed.

(** C9. On the two test vectors of the specification [areSimilarURLs]
    answers true: in the first the domains and the paths normalise to the
    same strings; in the second the paths are at edit distance 1 and
    their similarity is above the threshold. *)
Theorem areSimilarURLs_test_vectors :
  let ToLower := strings.ToLowerASCII in
  (areSimilarURLs ToLower "https://example.com/article"
                          "https://www.example.com/article/" = true
   /\ extractDomain ToLower "https://example.com/article"
      = extractDomain ToLower "https://www.example.com/article/"
   /\ extractPath "https://example.com/article"
      = extractPath "https://www.example.com/article/")
  /\
  (areSimilarURLs ToLower "https://site.com/page?id=1"
                          "https://site.com/page?id=2" = true
   /\ levenshtein (extractPath "https://site.com/page?id=1")
                  (extractPath "https://site.com/page?id=2") = 1
   /\ PrimFloat.ltb threshold
        (calculateSimilarity ToLower (extractPath "https://site.com/page?id=1")
                                     (extractPath "https://site.com/page?id=2"))
      = true).
Proof. vm_compute. repeat split. Qed.

(** ** The duplicate detector *)

Section DuplicateProofs.

Variable ToLower : string -> string.

Lemma scanEarlier_urls url (l1 l2 : list Tab) :
  URL <$> l1 = URL <$> l2 ->
  forall j, scanEarlier ToLower url l1 j = scanEarlier ToLower url l2 j.
Proof.
  revert l2. induction l1 as [|t1 l1 IH]; intros [|t2 l2] Heq j;
    simplify_eq/=; [done|].
  rewrite H. by rewrite (IH l2).
Qed.

Lemma scanEarlier_Some url (l : list Tab) :
  forall j0 j, scanEarlier ToLower url l j0 = Some j ->
    exists k tab_k, j = (j0 + k)%nat /\ l !! k = Some tab_k /\
      matches ToLower url (URL tab_k) /\
      forall k' tab_k', (k' < k)%nat -> l !! k' = Some tab_k' ->
        ~ matches ToLower url (URL tab_k').
Proof.
  induction l as [|t l IH]; intros j0 j; simpl; [done|].
  case_bool_decide as Hexact.
  { intros [= <-]. exists 0%nat, t. repeat split; [lia | by left | lia]. }
  destruct (areSimilarURLs ToLower url (URL t)) eqn:Hsim.
  { intros [= <-]. exists 0%nat, t. repeat split; [lia | by right | lia]. }
  intros Hscan. destruct (IH _ _ Hscan) as (k & tab_k & -> & Hk & Hm & Hleast).
  exists (S k), tab_k. repeat split; [lia | done | done |].
  intros [|k'] tab_k' Hlt Hk'; simplify_eq/=.
  - intros [?|?]; congruence.
  - apply (Hleast k'); [lia | done].
Qed.

Lemma scanEarlier_None url (l : list Tab) :
  forall j0, scanEarlier ToLower url l j0 = None ->
    forall k tab_k, l !! k = Some tab_k -> ~ matches ToLower url (URL tab_k).
Proof.
  induction l as [|t l IH]; intros j0; simpl; [done|].
  case_bool_decide as Hexact; [done|].
  destruct (areSimilarURLs ToLower url (URL t)) eqn:Hsim; [done|].
  intros Hscan [|k] tab_k Hk; simplify_eq/=.
  - intros [?|?]; congruence.
  - by apply (IH _ Hscan k).
Qed.

(** The outer loop: after [k] rounds the tabs below [k] are annotated, the
    others untouched, and no URL has changed. *)
Lemma findDuplicates_lookup (tabs : list Tab) (i : nat) (tab_i : Tab) :
  tabs !! i = Some tab_i ->
  findDuplicates ToLower tabs !! i = Some (annotated ToLower tabs i tab_i).
Proof.
  intros Hi. unfold findDuplicates.
  pose proof (foldl_seq_ind
    (fun k (m : list Tab) =>
       URL <$> m = URL <$> tabs /\
       forall i tab_i, tabs !! i = Some tab_i ->
         m !! i = Some (if decide (i < k)%nat
                        then annotated ToLower tabs i tab_i else tab_i))
    (markDuplicate ToLower) (length tabs) 0%nat tabs) as H.
  destruct H as [_ H].
  - split; [done|]. intros i' t' Hi'. by rewrite decide_False by lia.
  - intros k m Hk [Hurls Hm]. unfold markDuplicate.
    destruct (lookup_lt_is_Some_2 tabs k) as [tab_k Htk]; [lia|].
    rewrite (Hm k tab_k Htk), decide_False by lia.
    assert (Hscan : scanEarlier ToLower (URL tab_k) (take k m) 0
                    = scanEarlier ToLower (URL tab_k) (take k tabs) 0).
    { apply scanEarlier_urls. by rewrite !fmap_take, Hurls. }
    rewrite Hscan.
    assert (Hlen : length m = length tabs).
    { by rewrite <- (length_fmap URL m), Hurls, length_fmap. }
    destruct (scanEarlier ToLower (URL tab_k) (take k tabs) 0) as [idx|] eqn:Hidx.
    + split.
      * rewrite list_fmap_insert. simpl.
        rewrite <- Hurls. apply list_insert_id.
        rewrite list_lookup_fmap, (Hm k tab_k Htk), decide_False by lia. done.
      * intros i' t' Hi'. destruct (decide (i' = k)) as [->|Hne].
        -- rewrite list_lookup_insert_eq by lia. simplify_eq.
           rewrite decide_True by lia. unfold annotated. by rewrite Hidx.
        -- rewrite list_lookup_insert_ne by done. rewrite (Hm i' t' Hi').
           repeat case_decide; done || lia.
    + split; [done|]. intros i' t' Hi'. rewrite (Hm i' t' Hi').
      destruct (decide (i' = k)) as [->|Hne].
      * simplify_eq. rewrite decide_False, decide_True by lia.
        unfold annotated. by rewrite Hidx.
      * repeat case_decide; done || lia.
  - rewrite (H i tab_i Hi). rewrite decide_True; [done|].
    simpl. by eapply lookup_lt_Some.
Qed.

End DuplicateProofs.




(** The marks [findDuplicates] leaves on the example list. *)
Example findDuplicates_example :
  DuplicateOf <$> findDuplicates strings.ToLowerASCII exampleTabs
  = [None; None; Some 0%nat; Some 1%nat].
Proof. vm_compute. reflexivity. Qed.

(** ** The pinned-tab classifier *)

Lemma tabsAt_snoc allTabs t u p :
  tabsAt (allTabs ++ [t]) u p =
  tabsAt allTabs u p ++ (if decide (URL t = u /\ TabIndex t = p) then [t] else []).
Proof.
  unfold tabsAt. by rewrite filter_app.
Qed.

(** The first loop counts, for each URL and each index up to 4, the tabs
    with that URL at that index. *)
Lemma urlPositionCount_entry allTabs u p :
  countEntry (urlPositionCount allTabs) u p =
  if decide (p <= 4 /\ tabsAt allTabs u p <> [])
  then Some (Z.of_nat (length (tabsAt allTabs u p))) else None.
Proof.
  unfold urlPositionCount.
  induction allTabs as [|t allTabs IH] using rev_ind.
  - simpl. unfold countEntry. rewrite lookup_empty. simpl.
    by rewrite decide_False by (intros [_ ?]; done).
  - rewrite foldl_app. simpl.
    set (m := foldl _ ∅ allTabs) in *.
    rewrite tabsAt_snoc.
    destruct (Z.leb_spec (TabIndex t) 4) as [Hle|Hgt].
    + unfold countEntry. destruct (decide (URL t = u)) as [<-|Hu].
      * rewrite lookup_insert_eq. simpl. unfold incr.
        assert (Hinner : default ∅ (m !! URL t) !! p = countEntry m (URL t) p).
        { unfold countEntry. destruct (m !! URL t); simpl; [done|].
          by rewrite lookup_empty. }
        destruct (decide (TabIndex t = p)) as [<-|Hp].
        -- rewrite lookup_insert_eq.
           rewrite (decide_True (P := URL t = URL t /\ TabIndex t = TabIndex t))
             by done.
           rewrite decide_True
             by (split; [lia | by destruct (tabsAt allTabs (URL t) (TabIndex t))]).
           f_equal. unfold getZ. rewrite Hinner, IH, length_app. simpl.
           case_decide as Hc; simpl; [lia|].
           destruct (tabsAt allTabs (URL t) (TabIndex t)); [simpl; lia|].
           exfalso. apply Hc. split; [lia|done].
        -- rewrite lookup_insert_ne by done.
           rewrite Hinner, IH.
           rewrite (decide_False (P := URL t = URL t /\ TabIndex t = p)) by tauto.
           by rewrite app_nil_r.
      * rewrite lookup_insert_ne by done.
        rewrite (decide_False (P := URL t = u /\ TabIndex t = p)) by tauto.
        rewrite app_nil_r. apply IH.
    + destruct (decide (URL t = u /\ TabIndex t = p)) as [[Hu Hp]|Hne].
      * rewrite IH. rewrite !decide_False by lia. done.
      * rewrite app_nil_r. apply IH.
Qed.

Lemma reachesThree_spec (positionCounts : gmap Z Z) :
  reachesThree positionCounts = true <->
  exists p c, positionCounts !! p = Some c /\ 3 <= c.
Proof.
  unfold reachesThree.
  apply (map_fold_weak_ind
    (fun (found : bool) (m : gmap Z Z) =>
       found = true <-> exists p c, m !! p = Some c /\ 3 <= c)).
  - split; [done|]. intros (p & c & Hp & _). by rewrite lookup_empty in Hp.
  - intros p c m found Hfresh IH. rewrite orb_true_iff, IH. split.
    + intros [(p' & c' & Hp' & Hc')|Hc].
      * exists p', c'. split; [|done].
        rewrite lookup_insert_ne; [done|]. intros ->. congruence.
      * exists p, c. rewrite lookup_insert_eq. split; [done|].
        destruct (Z.geb_spec c 3); [lia|done].
    + intros (p' & c' & Hp' & Hc').
      destruct (decide (p = p')) as [->|Hne].
      * rewrite lookup_insert_eq in Hp'. simplify_eq. right.
        destruct (Z.geb_spec c' 3); [done|lia].
      * rewrite lookup_insert_ne in Hp' by done. left. by exists p', c'.
Qed.

Lemma pinnedURLs_spec allTabs u :
  isPinned allTabs u = true <->
  exists positionCounts,
    urlPositionCount allTabs !! u = Some positionCounts /\
    reachesThree positionCounts = true.
Proof.
  unfold isPinned, pinnedURLs.
  apply (map_fold_weak_ind
    (fun (pinned : gmap string bool) (m : gmap string (gmap Z Z)) =>
       getBool pinned u = true <->
       exists pc, m !! u = Some pc /\ reachesThree pc = true)).
  - unfold getBool. rewrite lookup_empty. simpl. split; [done|].
    intros (pc & Hpc & _). by rewrite lookup_empty in Hpc.
  - intros url pc m pinned Hfresh IH.
    destruct (decide (url = u)) as [->|Hne].
    + rewrite lookup_insert_eq.
      assert (Hno : getBool pinned u = false).
      { apply not_true_is_false. intros Hb.
        apply IH in Hb as (pc' & Hpc' & _). congruence. }
      destruct (reachesThree pc) eqn:Hr.
      * unfold getBool. rewrite lookup_insert_eq. simpl.
        split; [|done]. intros _. by exists pc.
      * rewrite Hno. split; [done|]. intros (pc' & [= <-] & Hr'). congruence.
    + rewrite lookup_insert_ne by done.
      destruct (reachesThree pc); [|done].
      unfold getBool. rewrite lookup_insert_ne by done. apply IH.
Qed.

(** What the classifier decides, in terms of the tab list alone. *)
Lemma isPinned_count allTabs u :
  isPinned allTabs u = true <->
  exists p, p <= 4 /\ (3 <= length (tabsAt allTabs u p))%nat.
Proof.
  rewrite pinnedURLs_spec. split.
  - intros (pc & Hpc & Hr). apply reachesThree_spec in Hr as (p & c & Hp & Hc).
    pose proof (urlPositionCount_entry allTabs u p) as He.
    unfold countEntry in He. rewrite Hpc in He. simpl in He. rewrite Hp in He.
    case_decide as Hd; [|done]. injection He as ->.
    exists p. split; [tauto|lia].
  - intros (p & Hp & Hc).
    pose proof (urlPositionCount_entry allTabs u p) as He.
    rewrite decide_True in He.
    2:{ split; [done|]. destruct (tabsAt allTabs u p); [simpl in Hc; lia|done]. }
    unfold countEntry in He.
    destruct (urlPositionCount allTabs !! u) as [pc|]; [|done].
    exists pc. split; [done|]. apply reachesThree_spec.
    exists p, (Z.of_nat (length (tabsAt allTabs u p))). split; [done|lia].
Qed.

Lemma tabsAt_windows_NoDup allTabs u p :
  WellFormed allTabs -> NoDup (WindowIndex <$> tabsAt allTabs u p).
Proof.
  unfold WellFormed, tabsAt.
  induction allTabs as [|t allTabs IH]; simpl; [constructor|].
  rewrite NoDup_cons. intros [Hfresh Hnodup].
  rewrite filter_cons. case_decide as Ht; [|by apply IH].
  simpl. apply NoDup_cons. split; [|by apply IH].
  intros Hin. apply Hfresh.
  apply list_elem_of_fmap in Hin as (t' & Hw & Hin).
  apply list_elem_of_filter in Hin as [[_ Hp'] Hin].
  apply list_elem_of_fmap. exists t'. split; [|done].
  unfold position. destruct Ht as [_ Hp]. congruence.
Qed.

Lemma size_windowsAt allTabs u p :
  WellFormed allTabs ->
  size (windowsAt allTabs u p) = length (tabsAt allTabs u p).
Proof.
  intros Hwf. unfold windowsAt.
  rewrite size_list_to_set by by apply tabsAt_windows_NoDup.
  by rewrite length_fmap.
Qed.

Lemma windowsAt_candidate allTabs u p :
  p <= 4 -> windowsAt allTabs u p ⊆ candidateWindows allTabs u.
Proof.
  intros Hp w. unfold windowsAt, candidateWindows, tabsAt.
  rewrite !elem_of_list_to_set, !list_elem_of_fmap.
  intros (t & -> & Hin). exists t. split; [done|].
  apply list_elem_of_filter in Hin as [[Hu Ht] Hin].
  apply list_elem_of_filter. split; [|done]. split; [done|lia].
Qed.

(** C1, as the code has it.  On a snapshot (one tab per window and tab
    index) a URL is classified pinned exactly when, for some tab index
    [p <= 4], it sits at index [p] in at least 3 distinct windows.  So a
    URL that is a pin candidate in exactly 2 windows is not pinned, a URL
    at one and the same index [p <= 4] of exactly 3 windows is, and the
    filter removes exactly the tabs at an index up to 4 whose URL is
    pinned. *)
Theorem filterPinnedTabs_pinned_same_position (allTabs : list Tab) (u : string) :
  WellFormed allTabs ->
  (isPinned allTabs u = true <->
     exists p, p <= 4 /\ (3 <= size (windowsAt allTabs u p))%nat) /\
  (size (candidateWindows allTabs u) = 2%nat -> isPinned allTabs u = false) /\
  (forall p, p <= 4 -> size (windowsAt allTabs u p) = 3%nat ->
     isPinned allTabs u = true) /\
  (forall t, t ∈ (filterPinnedTabs allTabs).1 <->
     t ∈ allTabs /\ ~ (TabIndex t <= 4 /\ isPinned allTabs (URL t) = true)).
Proof.
  intros Hwf.
  assert (Hiff : isPinned allTabs u = true <->
            exists p, p <= 4 /\ (3 <= size (windowsAt allTabs u p))%nat).
  { rewrite isPinned_count. split; intros (p & Hp & Hc); exists p;
      (split; [done|]); by rewrite ?size_windowsAt in * by done. }
  split; [done|]. split; [|split].
  - intros Htwo. apply not_true_is_false. intros Hpin.
    apply Hiff in Hpin as (p & Hp & Hc).
    pose proof (subseteq_size _ _ (windowsAt_candidate allTabs u p Hp)). lia.
  - intros p Hp Hthree. apply Hiff. exists p. split; [done|lia].
  - intros t. unfold filterPinnedTabs. simpl.
    rewrite list_elem_of_filter. unfold isPinnedTab, isPinned.
    rewrite andb_false_iff, Z.leb_gt.
    split; intros [H1 H2]; split; try done.
    + intros [Hle Hb]. destruct H1 as [?|Hf]; [lia|congruence].
    + destruct (Z.le_gt_cases (TabIndex t) 4) as [Hle|Hgt]; [|left; lia].
      right. apply not_true_is_false. tauto.
Qed.

Lemma filterPinnedTabs_pinned_same_position_witness :
  WellFormed alignedTabs /\
  (isPinned alignedTabs "https://mail.example/" = true <->
     exists p, p <= 4 /\
       (3 <= size (windowsAt alignedTabs "https://mail.example/" p))%nat) /\
  (size (candidateWindows alignedTabs "https://mail.example/") = 2%nat ->
     isPinned alignedTabs "https://mail.example/" = false) /\
  (forall p, p <= 4 ->
     size (windowsAt alignedTabs "https://mail.example/" p) = 3%nat ->
     isPinned alignedTabs "https://mail.example/" = true) /\
  (forall t, t ∈ (filterPinnedTabs alignedTabs).1 <->
     t ∈ alignedTabs /\ ~ (TabIndex t <= 4 /\ isPinned alignedTabs (URL t) = true)).
Proof.
  assert (Hwf : WellFormed alignedTabs).
  { apply (bool_decide_unpack _). vm_compute. exact I. }
  split; [exact Hwf|].
  exact (filterPinnedTabs_pinned_same_position alignedTabs "https://mail.example/" Hwf).
Defined.

(** C1, as the specification words it, fails: a URL that is a pin
    candidate in 3 distinct windows, at a different tab index in each, is
    not classified pinned. *)
Lemma pinned_any_position_counterexample :
  WellFormed scatteredTabs /\
  size (candidateWindows scatteredTabs "https://mail.example/") = 3%nat /\
  isPinned scatteredTabs "https://mail.example/" = false /\
  ~ (isPinned scatteredTabs "https://mail.example/" = true <->
     (3 <= size (candidateWindows scatteredTabs "https://mail.example/"))%nat).
Proof.
  assert (Hsize : size (candidateWindows scatteredTabs "https://mail.example/") = 3%nat).
  { vm_compute. reflexivity. }
  assert (Hpin : isPinned scatteredTabs "https://mail.example/" = false).
  { vm_compute. reflexivity. }
  split; [|split; [exact Hsize|split; [exact Hpin|]]].
  - apply (bool_decide_unpack _). vm_compute. exact I.
  - intros [_ Hback]. rewrite Hsize, Hpin in Hback.
    assert (false = true) as Hf by (apply Hback; lia). discriminate Hf.
Qed.

(** The pinned tabs of the aligned example are filtered out, and the
    window they leave empty is reported. *)
Example filterPinnedTabs_example :
  URL <$> (filterPinnedTabs alignedTabs).1
    = ["https://news.example/"; "https://wiki.example/"]
  /\ (filterPinnedTabs alignedTabs).2 = [2].
Proof. vm_compute. split; reflexivity. Qed.

(** ** The staleness classifier *)

Lemma enrichLoop_lookup visitTimes ageThreshold (tabs : list Tab) i tab_i :
  tabs !! i = Some tab_i ->
  foldl (enrichTab visitTimes ageThreshold) tabs (seq 0 (length tabs)) !! i
  = Some (enriched visitTimes ageThreshold tab_i).
Proof.
  intros Hi.
  pose proof (foldl_seq_ind
    (fun k (m : list Tab) =>
       length m = length tabs /\
       forall i tab_i, tabs !! i = Some tab_i ->
         m !! i = Some (if decide (i < k)%nat
                        then enriched visitTimes ageThreshold tab_i else tab_i))
    (enrichTab visitTimes ageThreshold) (length tabs) 0%nat tabs) as H.
  destruct H as [_ H].
  - split; [done|]. intros i' t' Hi'. by rewrite decide_False by lia.
  - intros k m Hk [Hlen Hm]. unfold enrichTab.
    destruct (lookup_lt_is_Some_2 tabs k) as [tab_k Htk]; [lia|].
    rewrite (Hm k tab_k Htk), decide_False by lia.
    assert (Hstep : forall new, new = enriched visitTimes ageThreshold tab_k ->
              length (<[k := new]> m) = length tabs /\
              forall i tab_i, tabs !! i = Some tab_i ->
                <[k := new]> m !! i
                = Some (if decide (i < S k)%nat
                        then enriched visitTimes ageThreshold tab_i else tab_i)).
    { intros new ->. split; [by rewrite length_insert|].
      intros i' t' Hi'. destruct (decide (i' = k)) as [->|Hne].
      - rewrite list_lookup_insert_eq by lia. simplify_eq.
        by rewrite decide_True by lia.
      - rewrite list_lookup_insert_ne by done. rewrite (Hm i' t' Hi').
        repeat case_decide; done || lia. }
    unfold enriched in Hstep.
    destruct (visitTimes !! URL tab_k); by apply Hstep.
  - rewrite (H i tab_i Hi). rewrite decide_True; [done|].
    simpl. by eapply lookup_lt_Some.
Qed.

Lemma enrichWithVisitData_readable h rows tabs ageDays w :
  historyRows h = Some rows ->
  enrichWithVisitData h tabs ageDays w
  = (foldl (enrichTab (visitTimesOf h rows)
                      (time_AddDate h (time_Now h) 0 0 (- ageDays)))
           tabs (seq 0 (length tabs)), w).
Proof.
  unfold historyRows, enrichWithVisitData.
  destruct (os_UserHomeDir h) as [homeDir|]; simpl; [|done].
  destruct (sql_Open h _ _) as [db|]; simpl; [|done].
  destruct (db_Query db historyQuery); simpl; [|done].
  by intros [= ->].
Qed.

Lemma Before_earlier (t u : time.Time) :
  time.Before t u = true <-> earlier t u.
Proof.
  unfold time.Before, earlier.
  rewrite orb_true_iff, andb_true_iff, !Z.ltb_lt, Z.eqb_eq. done.
Qed.

Lemma Before_irrefl (t : time.Time) : time.Before t t = false.
Proof.
  unfold time.Before. cbv zeta.
  by rewrite !Z.ltb_irrefl, andb_false_r.
Qed.

Lemma enrichWithVisitData_untouched h tabs ageDays w :
  historyRows h = None ->
  (enrichWithVisitData h tabs ageDays w).1 = tabs.
Proof.
  unfold historyRows, enrichWithVisitData.
  destruct (os_UserHomeDir h) as [homeDir|]; simpl; [|done].
  destruct (sql_Open h _ _) as [db|]; simpl; [|done].
  by destruct (db_Query db historyQuery).
Qed.

(** C8, as the code has it.  When the history store can be read, the
    classifier marks a tab stale exactly when the store has no visit for
    the tab's URL or has a last visit strictly before [now - ageDays]; a
    last visit exactly at [now - ageDays] leaves the tab not stale.  When
    the store cannot be read, no lookup takes place and the tab is
    returned as it was. *)
Theorem enrichWithVisitData_stale_iff (h : Host) (tabs : list Tab) (ageDays : Z)
    (w : World) (i : nat) (tab_i : Tab) :
  tabs !! i = Some tab_i ->
  exists out_i,
    (enrichWithVisitData h tabs ageDays w).1 !! i = Some out_i /\
    URL out_i = URL tab_i /\
    match historyRows h with
    | Some rows =>
        (IsOld out_i = true <->
           visitTimesOf h rows !! URL tab_i = None \/
           exists lastVisit,
             visitTimesOf h rows !! URL tab_i = Some lastVisit /\
             earlier lastVisit (time_AddDate h (time_Now h) 0 0 (- ageDays))) /\
        (visitTimesOf h rows !! URL tab_i
           = Some (time_AddDate h (time_Now h) 0 0 (- ageDays)) ->
         IsOld out_i = false)
    | None => out_i = tab_i
    end.
Proof.
  intros Hi.
  destruct (historyRows h) as [rows|] eqn:Hrows.
  - rewrite (enrichWithVisitData_readable _ _ _ _ _ Hrows). simpl.
    eexists. split; [by apply enrichLoop_lookup|].
    unfold enriched.
    destruct (visitTimesOf h rows !! URL tab_i) as [lastVisit|]; simpl.
    + split; [done|]. split.
      * rewrite Before_earlier. split.
        -- intros Hlt. right. by exists lastVisit.
        -- intros [?|(lv & [= <-] & Hlt)]; done.
      * intros [= ->]. apply Before_irrefl.
    + split; [done|]. split; [|done]. split; [by left|done].
  - rewrite (enrichWithVisitData_untouched _ _ _ _ Hrows). by exists tab_i.
Qed.

Lemma enrichWithVisitData_stale_iff_witness :
  exampleTabs !! 1%nat = Some (rawTab 1 2 "B" "https://site.com/page?id=1") /\
  historyRows exampleHost = Some (default [] (db_Query exampleDB historyQuery)) /\
  exists out_i,
    (enrichWithVisitData exampleHost exampleTabs 30 World0).1 !! 1%nat = Some out_i /\
    URL out_i = "https://site.com/page?id=1" /\
    (IsOld out_i = true <->
       visitTimesOf exampleHost (default [] (db_Query exampleDB historyQuery))
         !! "https://site.com/page?id=1" = None \/
       exists lastVisit,
         visitTimesOf exampleHost (default [] (db_Query exampleDB historyQuery))
           !! "https://site.com/page?id=1" = Some lastVisit /\
         earlier lastVisit (time_AddDate exampleHost (time_Now exampleHost) 0 0 (- 30))) /\
    (visitTimesOf exampleHost (default [] (db_Query exampleDB historyQuery))
       !! "https://site.com/page?id=1"
       = Some (time_AddDate exampleHost (time_Now exampleHost) 0 0 (- 30)) ->
     IsOld out_i = false).
Proof.
  assert (Hi : exampleTabs !! 1%nat
               = Some (rawTab 1 2 "B" "https://site.com/page?id=1")) by reflexivity.
  assert (Hrows : historyRows exampleHost
                  = Some (default [] (db_Query exampleDB historyQuery))).
  { vm_compute. reflexivity. }
  split; [exact Hi|]. split; [exact Hrows|].
  pose proof (enrichWithVisitData_stale_iff exampleHost exampleTabs 30 World0 1
                (rawTab 1 2 "B" "https://site.com/page?id=1") Hi) as H.
  rewrite Hrows in H. exact H.
Defined.

(** C8, as the specification words it, fails: it makes no exception for
    a store that cannot be read.  With a history database that cannot be
    opened the lookup returns nothing for the first example tab, and the
    tab comes back not stale. *)
Lemma unreadable_store_counterexample :
  exampleTabs !! 0%nat = Some (rawTab 1 1 "A" "https://a.com/x") /\
  historyLookup noHistoryHost "https://a.com/x" = None /\
  IsOld <$> (enrichWithVisitData noHistoryHost exampleTabs 30 World0).1 !! 0%nat
    = Some false /\
  ~ (forall i tab_i out_i,
       exampleTabs !! i = Some tab_i ->
       (enrichWithVisitData noHistoryHost exampleTabs 30 World0).1 !! i = Some out_i ->
       (IsOld out_i = true <->
          historyLookup noHistoryHost (URL tab_i) = None \/
          exists lastVisit,
            historyLookup noHistoryHost (URL tab_i) = Some lastVisit /\
            earlier lastVisit
              (time_AddDate noHistoryHost (time_Now noHistoryHost) 0 0 (- 30)))).
Proof.
  split; [reflexivity|]. split; [reflexivity|]. split; [reflexivity|].
  intros Hall.
  destruct (Hall 0%nat (rawTab 1 1 "A" "https://a.com/x")
                 (rawTab 1 1 "A" "https://a.com/x")) as [_ Hback];
    [reflexivity|reflexivity|].
  assert (false = true) as Hf; [|discriminate Hf].
  apply Hback. left. reflexivity.
Qed.

(** On the example host: the first URL was visited 10 days ago, the
    second exactly 30 days ago, the others never. *)
Example enrichWithVisitData_example :
  IsOld <$> (enrichWithVisitData exampleHost exampleTabs 30 World0).1
  = [false; false; false; true].
Proof. vm_compute. reflexivity. Qed.

(** The seconds [time.Unix] keeps are counted from year 1 in an [int64]:
    a visit time close to the largest [int64] wraps around to a date long
    past, and the tab is marked stale. *)
Example enrichWithVisitData_far_future_example :
  time.ext <$> visitTimesOf farFutureHost
                 [Some ("https://a.com/x", 9223372000000000000%float)]
               !! "https://a.com/x"
    = Some (-9223372010595647616) /\
  IsOld <$> (enrichWithVisitData farFutureHost exampleTabs 30 World0).1
    = [true; true; true; true].
Proof. vm_compute. split; reflexivity. Qed.

(** C2, as the code has it.  When the history store cannot be read (no
    home directory, or the database does not open, or the query fails),
    the classifier logs one warning and returns the tab list as it
    received it: no stale flag is set, so a tab that was not stale on
    entry, as every tab of a snapshot is, is not stale on return. *)
Theorem enrichWithVisitData_unavailable (h : Host) (tabs : list Tab)
    (ageDays : Z) (w : World) :
  historyRows h = None ->
  (exists warning,
     enrichWithVisitData h tabs ageDays w
     = (tabs, {| issued := issued w; logged := logged w ++ [warning] |})) /\
  (Forall (fun t => IsOld t = false) tabs ->
   Forall (fun t => IsOld t = false) (enrichWithVisitData h tabs ageDays w).1).
Proof.
  intros Hrows.
  assert (Hrun : exists warning,
            enrichWithVisitData h tabs ageDays w
            = (tabs, {| issued := issued w; logged := logged w ++ [warning] |})).
  { unfold historyRows in Hrows. unfold enrichWithVisitData.
    destruct (os_UserHomeDir h) as [homeDir|]; simpl in *;
      [|by exists WarnHomeDir].
    destruct (sql_Open h _ _) as [db|]; simpl in *;
      [|by exists WarnOpenHistory].
    rewrite Hrows. by exists WarnQueryHistory. }
  split; [done|].
  destruct Hrun as [warning ->]. done.
Qed.

Lemma enrichWithVisitData_unavailable_witness :
  historyRows noHistoryHost = None /\
  (exists warning,
     enrichWithVisitData noHistoryHost exampleTabs 30 World0
     = (exampleTabs, {| issued := []; logged := [] ++ [warning] |})) /\
  (Forall (fun t => IsOld t = false) exampleTabs ->
   Forall (fun t => IsOld t = false)
          (enrichWithVisitData noHistoryHost exampleTabs 30 World0).1).
Proof.
  assert (Hrows : historyRows noHistoryHost = None) by reflexivity.
  split; [exact Hrows|].
  exact (enrichWithVisitData_unavailable noHistoryHost exampleTabs 30 World0 Hrows).
Defined.

(** C2, as the specification words it, fails: with a history database
    that cannot be opened, the tabs of a snapshot come back with their
    stale flag false, not true. *)
Lemma unavailable_history_counterexample :
  historyRows noHistoryHost = None /\
  IsOld <$> (enrichWithVisitData noHistoryHost exampleTabs 30 World0).1
    = [false; false; false; false] /\
  ~ (forall t, t ∈ (enrichWithVisitData noHistoryHost exampleTabs 30 World0).1 ->
       IsOld t = true).
Proof.
  split; [reflexivity|]. split; [reflexivity|].
  intros Hall.
  specialize (Hall (rawTab 1 1 "A" "https://a.com/x")).
  assert (false = true) as Hf; [|discriminate Hf].
  apply Hall. apply list_elem_of_here.
Qed.

(** ** The closure reconciler *)

(** *** The scripts a run issues *)

Lemma forEach_cons {A} (body : A -> M unit) (x : A) (l : list A) (w : World) :
  forEach (x :: l) body w = forEach l body (body x w).2.
Proof. simpl. unfold mbind, M_bind, bind. by destruct (body x w). Qed.

Lemma closeOneTab_issued h wt w :
  issued (closeOneTab h wt w).2 = issued w ++ [closeTabCmd wt].
Proof.
  unfold closeOneTab, mbind, M_bind, bind, run.
  by destruct (osascript h (issued w) (CloseTab (tab wt) (window wt))).
Qed.

Lemma closeOneWindow_issued h x w :
  issued (closeOneWindow h x w).2 = issued w ++ [CloseWindow x].
Proof.
  unfold closeOneWindow, mbind, M_bind, bind, run.
  by destruct (osascript h (issued w) (CloseWindow x)).
Qed.

Lemma forEach_closeOneTab_issued h (l : list windowTab) :
  forall w, issued (forEach l (closeOneTab h) w).2 = issued w ++ (closeTabCmd <$> l).
Proof.
  induction l as [|wt l IH]; intros w.
  - simpl. by rewrite app_nil_r.
  - rewrite forEach_cons, IH, closeOneTab_issued, <- app_assoc. done.
Qed.

Lemma forEach_closeOneWindow_issued h (l : list Z) :
  forall w, issued (forEach l (closeOneWindow h) w).2 = issued w ++ (CloseWindow <$> l).
Proof.
  induction l as [|x l IH]; intros w.
  - simpl. by rewrite app_nil_r.
  - rewrite forEach_cons, IH, closeOneWindow_issued, <- app_assoc. done.
Qed.

(** A run with a fresh snapshot: what it issues and what it returns do
    not depend on the outcome of any closing script. *)
Lemma closeTabsAsync_run h tabsToClose emptyWindows w currentTabs :
  osascript h (issued w) Enumerate = Some currentTabs ->
  let plan := sort_Slice closeLess (matchTabs (urlSet tabsToClose) currentTabs) in
  issued (closeTabsAsync h tabsToClose emptyWindows w).2
  = issued w ++ [Enumerate] ++ (closeTabCmd <$> plan)
      ++ (CloseWindow <$> sort_Slice reverseIntLess emptyWindows)
  /\ (closeTabsAsync h tabsToClose emptyWindows w).1
     = {| count := Z.of_nat (length plan) |}.
Proof.
  intros Hsnap plan.
  set (w1 := {| issued := issued w ++ [Enumerate]; logged := logged w |}).
  set (ws := sort_Slice reverseIntLess emptyWindows).
  assert (Hrun : closeTabsAsync h tabsToClose emptyWindows w
                 = ({| count := Z.of_nat (length plan) |},
                    (forEach ws (closeOneWindow h)
                       (forEach plan (closeOneTab h) w1).2).2)).
  { unfold closeTabsAsync, getSafariTabsRaw, mbind, M_bind, bind, run.
    rewrite Hsnap. fold plan ws w1.
    destruct (forEach plan (closeOneTab h) w1) as [[] w2].
    simpl. by destruct (forEach ws (closeOneWindow h) w2) as [[] w3]. }
  rewrite Hrun. simpl. split; [|done].
  rewrite forEach_closeOneWindow_issued, forEach_closeOneTab_issued.
  simpl. by rewrite <- !app_assoc.
Qed.

(** *** The order of the plan *)

Lemma inOrder_closeLess a b : inOrder closeLess a b <-> descending a b.
Proof.
  unfold inOrder, closeLess, descending.
  destruct (Z.eqb_spec (window b) (window a)) as [He|Hne]; simpl.
  - destruct (Z.gtb_spec (tab b) (tab a)); split; intros; (done || lia).
  - destruct (Z.gtb_spec (window b) (window a)); split; intros; (done || lia).
Qed.

#[local] Instance inOrder_closeLess_total : Total (inOrder closeLess).
Proof. intros a b. rewrite !inOrder_closeLess. unfold descending. lia. Qed.

#[local] Instance inOrder_closeLess_trans : Transitive (inOrder closeLess).
Proof. intros a b c. rewrite !inOrder_closeLess. unfold descending. lia. Qed.

Lemma inOrder_reverseIntLess a b : inOrder reverseIntLess a b <-> b <= a.
Proof. unfold inOrder, reverseIntLess. apply Z.ltb_ge. Qed.

#[local] Instance inOrder_reverseIntLess_total : Total (inOrder reverseIntLess).
Proof. intros a b. rewrite !inOrder_reverseIntLess. lia. Qed.

#[local] Instance inOrder_reverseIntLess_trans : Transitive (inOrder reverseIntLess).
Proof. intros a b c. rewrite !inOrder_reverseIntLess. lia. Qed.

Lemma sort_Slice_closeLess_sorted (x : list windowTab) :
  StronglySorted descending (sort_Slice closeLess x).
Proof.
  unfold sort_Slice.
  pose proof (StronglySorted_merge_sort (inOrder closeLess) x) as Hs.
  induction Hs as [|a l Hl IH Ha]; constructor; [done|].
  eapply Forall_impl; [exact Ha|]. intros b. apply inOrder_closeLess.
Qed.

Lemma sort_Slice_Permutation {A} (less : A -> A -> bool) (x : list A) :
  sort_Slice less x ≡ₚ x.
Proof. apply merge_sort_Permutation. Qed.

(** The scripts of a plan are fixed by the matched set and the order:
    whatever a sort does with entries at one position. *)
Lemma descending_cmds_unique (plan1 plan2 : list windowTab) :
  plan1 ≡ₚ plan2 ->
  StronglySorted descending plan1 -> StronglySorted descending plan2 ->
  closeTabCmd <$> plan1 = closeTabCmd <$> plan2.
Proof.
  intros Hperm Hs1 Hs2.
  apply (StronglySorted_unique_strong cmdDescending).
  - intros c1 c2 Hc1 Hc2.
    apply list_elem_of_fmap in Hc1 as (a & -> & _).
    apply list_elem_of_fmap in Hc2 as (b & -> & _).
    unfold closeTabCmd. simpl. intros H1 H2. f_equal; lia.
  - eapply StronglySorted_fmap; [|exact Hs1]. by intros a b.
  - eapply StronglySorted_fmap; [|exact Hs2]. by intros a b.
  - by rewrite Hperm.
Qed.

(** C4. In every close operation the matched tabs are put in the order
    window descending, then tab descending, and the close scripts are
    issued in exactly that order, which the matched set determines; for
    matched tabs (window 1, tab 5), (window 1, tab 2), (window 2, tab 1)
    the scripts close (window 2, tab 1), (window 1, tab 5),
    (window 1, tab 2) in this order. *)
Theorem closeTabsAsync_close_order :
  (forall (h : Host) (tabsToClose : list Tab) (emptyWindows : list Z) (w : World)
          (currentTabs : list Tab),
     osascript h (issued w) Enumerate = Some currentTabs ->
     exists plan,
       plan ≡ₚ matchTabs (urlSet tabsToClose) currentTabs /\
       StronglySorted descending plan /\
       (exists windows,
          issued (closeTabsAsync h tabsToClose emptyWindows w).2
          = issued w ++ [Enumerate] ++ (closeTabCmd <$> plan)
              ++ (CloseWindow <$> windows)) /\
       (forall plan',
          plan' ≡ₚ matchTabs (urlSet tabsToClose) currentTabs ->
          StronglySorted descending plan' ->
          closeTabCmd <$> plan' = closeTabCmd <$> plan))
  /\
  (closeTabCmd <$> sort_Slice closeLess
     [ {| window := 1; tab := 5; url := "https://a.example/" |};
       {| window := 1; tab := 2; url := "https://b.example/" |};
       {| window := 2; tab := 1; url := "https://c.example/" |} ]
   = [CloseTab 1 2; CloseTab 5 1; CloseTab 2 1])
  /\
  (issued (closeTabsAsync orderHost orderSelection [] World0).2
   = [Enumerate; CloseTab 1 2; CloseTab 5 1; CloseTab 2 1]).
Proof.
  split; [|split; vm_compute; reflexivity].
  intros h tabsToClose emptyWindows w currentTabs Hsnap.
  exists (sort_Slice closeLess (matchTabs (urlSet tabsToClose) currentTabs)).
  split; [apply sort_Slice_Permutation|].
  split; [apply sort_Slice_closeLess_sorted|].
  split.
  - exists (sort_Slice reverseIntLess emptyWindows).
    by apply closeTabsAsync_run.
  - intros plan' Hperm Hsorted. apply descending_cmds_unique.
    + by rewrite Hperm, sort_Slice_Permutation.
    + done.
    + apply sort_Slice_closeLess_sorted.
Qed.

Lemma closeTabsAsync_close_order_witness :
  osascript orderHost (issued World0) Enumerate = Some orderSnapshot /\
  exists plan,
    plan ≡ₚ matchTabs (urlSet orderSelection) orderSnapshot /\
    StronglySorted descending plan /\
    (exists windows,
       issued (closeTabsAsync orderHost orderSelection [2; 7] World0).2
       = issued World0 ++ [Enumerate] ++ (closeTabCmd <$> plan)
           ++ (CloseWindow <$> windows)) /\
    (forall plan',
       plan' ≡ₚ matchTabs (urlSet orderSelection) orderSnapshot ->
       StronglySorted descending plan' ->
       closeTabCmd <$> plan' = closeTabCmd <$> plan).
Proof.
  split; [reflexivity|].
  apply (proj1 closeTabsAsync_close_order orderHost orderSelection [2; 7] World0
           orderSnapshot).
  reflexivity.
Defined.

(** C5. If the re-snapshot fails, the close operation stops there: it
    reports a count of zero, logs the failure, and has run no script but
    the enumeration. *)
Theorem closeTabsAsync_snapshot_failure (h : Host) (tabsToClose : list Tab)
    (emptyWindows : list Z) (w : World) :
  osascript h (issued w) Enumerate = None ->
  closeTabsAsync h tabsToClose emptyWindows w
  = ({| count := 0 |},
     {| issued := issued w ++ [Enumerate];
        logged := logged w ++ [ErrGettingCurrentTabs] |})
  /\ filter (fun c => isClose c = true)
            (issued (closeTabsAsync h tabsToClose emptyWindows w).2)
     = filter (fun c => isClose c = true) (issued w).
Proof.
  intros Hsnap.
  assert (Hrun : closeTabsAsync h tabsToClose emptyWindows w
                 = ({| count := 0 |},
                    {| issued := issued w ++ [Enumerate];
                       logged := logged w ++ [ErrGettingCurrentTabs] |})).
  { unfold closeTabsAsync, getSafariTabsRaw, mbind, M_bind, bind, run.
    by rewrite Hsnap. }
  split; [done|]. rewrite Hrun. simpl.
  rewrite filter_app. simpl. by rewrite app_nil_r.
Qed.

Lemma closeTabsAsync_snapshot_failure_witness :
  osascript unreachableHost (issued World0) Enumerate = None /\
  closeTabsAsync unreachableHost orderSelection [2; 7] World0
  = ({| count := 0 |},
     {| issued := issued World0 ++ [Enumerate];
        logged := logged World0 ++ [ErrGettingCurrentTabs] |})
  /\ filter (fun c => isClose c = true)
            (issued (closeTabsAsync unreachableHost orderSelection [2; 7] World0).2)
     = filter (fun c => isClose c = true) (issued World0).
Proof.
  split; [reflexivity|].
  apply (closeTabsAsync_snapshot_failure unreachableHost orderSelection [2; 7] World0).
  reflexivity.
Defined.

(** C7. With a fresh snapshot, every close-tab script of the plan and
    every close-window script is issued whatever the outcome of the
    others, and the count returned is the number of matched tabs: a host
    that fails other closing scripts sees the same scripts and gets the
    same count. *)
Theorem closeTabsAsync_best_effort (h : Host) (tabsToClose : list Tab)
    (emptyWindows : list Z) (w : World) (currentTabs : list Tab) :
  osascript h (issued w) Enumerate = Some currentTabs ->
  (exists plan,
     plan ≡ₚ matchTabs (urlSet tabsToClose) currentTabs /\
     issued (closeTabsAsync h tabsToClose emptyWindows w).2
     = issued w ++ [Enumerate] ++ (closeTabCmd <$> plan)
         ++ (CloseWindow <$> sort_Slice reverseIntLess emptyWindows)) /\
  count (closeTabsAsync h tabsToClose emptyWindows w).1
  = Z.of_nat (length (matchTabs (urlSet tabsToClose) currentTabs)) /\
  (forall h' : Host,
     osascript h' (issued w) Enumerate = Some currentTabs ->
     issued (closeTabsAsync h' tabsToClose emptyWindows w).2
     = issued (closeTabsAsync h tabsToClose emptyWindows w).2 /\
     (closeTabsAsync h' tabsToClose emptyWindows w).1
     = (closeTabsAsync h tabsToClose emptyWindows w).1).
Proof.
  intros Hsnap.
  destruct (closeTabsAsync_run h tabsToClose emptyWindows w currentTabs Hsnap)
    as [Hissued Hcount].
  split; [|split].
  - eexists. split; [|exact Hissued]. apply sort_Slice_Permutation.
  - rewrite Hcount. simpl. by rewrite sort_Slice_Permutation.
  - intros h' Hsnap'.
    destruct (closeTabsAsync_run h' tabsToClose emptyWindows w currentTabs Hsnap')
      as [Hissued' Hcount'].
    by rewrite Hissued, Hissued', Hcount, Hcount'.
Qed.

Lemma closeTabsAsync_best_effort_witness :
  osascript orderHost (issued World0) Enumerate = Some orderSnapshot /\
  (exists plan,
     plan ≡ₚ matchTabs (urlSet orderSelection) orderSnapshot /\
     issued (closeTabsAsync orderHost orderSelection [2; 7] World0).2
     = issued World0 ++ [Enumerate] ++ (closeTabCmd <$> plan)
         ++ (CloseWindow <$> sort_Slice reverseIntLess [2; 7])) /\
  count (closeTabsAsync orderHost orderSelection [2; 7] World0).1
  = Z.of_nat (length (matchTabs (urlSet orderSelection) orderSnapshot)) /\
  (forall h' : Host,
     osascript h' (issued World0) Enumerate = Some orderSnapshot ->
     issued (closeTabsAsync h' orderSelection [2; 7] World0).2
     = issued (closeTabsAsync orderHost orderSelection [2; 7] World0).2 /\
     (closeTabsAsync h' orderSelection [2; 7] World0).1
     = (closeTabsAsync orderHost orderSelection [2; 7] World0).1).
Proof.
  split; [reflexivity|].
  apply (closeTabsAsync_best_effort orderHost orderSelection [2; 7] World0
           orderSnapshot).
  reflexivity.
Defined.

(** A run in which one closing script fails, and one in which all do:
    the same scripts are issued and the same count returned; only the
    log differs. *)
Example closeTabsAsync_failures_example :
  closeTabsAsync orderHost orderSelection [2; 7] World0
  = ({| count := 3 |},
     {| issued := [Enumerate; CloseTab 1 2; CloseTab 5 1; CloseTab 2 1;
                   CloseWindow 7; CloseWindow 2];
        logged := [WarnCloseTab 5 1] |})
  /\
  closeTabsAsync refusingHost orderSelection [2; 7] World0
  = ({| count := 3 |},
     {| issued := [Enumerate; CloseTab 1 2; CloseTab 5 1; CloseTab 2 1;
                   CloseWindow 7; CloseWindow 2];
        logged := [WarnCloseTab 1 2; WarnCloseTab 5 1; WarnCloseTab 2 1;
                   WarnCloseWindow 7; WarnCloseWindow 2] |}).
Proof. vm_compute. split; reflexivity. Qed.

(** *** The matching loop *)

Lemma urlSet_spec (tabsToClose : list Tab) (u : string) :
  getBool (urlSet tabsToClose) u = true <->
  exists t0, t0 ∈ tabsToClose /\ URL t0 = u.
Proof.
  unfold urlSet.
  induction tabsToClose as [|t l IH] using rev_ind.
  - simpl. unfold getBool. rewrite lookup_empty. simpl. split; [done|].
    intros (t0 & Hin & _). by apply not_elem_of_nil in Hin.
  - rewrite foldl_app. simpl. unfold getBool in *.
    destruct (decide (URL t = u)) as [Hu|Hu].
    + rewrite Hu, lookup_insert_eq. simpl. split; [|done].
      intros _. exists t. split; [|done]. apply elem_of_app. right. by left.
    + rewrite lookup_insert_ne by done. rewrite IH.
      split; intros (t0 & Hin & Ht0); exists t0; (split; [|done]).
      * apply elem_of_app. by left.
      * apply elem_of_app in Hin as [Hin|Hin]; [done|].
        apply list_elem_of_singleton in Hin. congruence.
Qed.

Lemma getBool_delete (urls : gmap string bool) (k u : string) :
  getBool (delete k urls) u = true <-> u <> k /\ getBool urls u = true.
Proof.
  unfold getBool. destruct (decide (k = u)) as [->|Hne].
  - rewrite lookup_delete_eq. simpl. split; [done|]. by intros [? _].
  - rewrite lookup_delete_ne by done. split; [|by intros [_ ?]].
    intros H. split; [congruence|done].
Qed.

Lemma firstWithURL_cons (t : Tab) (rest : list Tab) (i : nat) (t' : Tab) :
  firstWithURL (t :: rest) i t' <->
  (i = 0%nat /\ t' = t) \/
  (exists i', i = S i' /\ firstWithURL rest i' t' /\ URL t <> URL t').
Proof.
  unfold firstWithURL. split.
  - intros [Hi Hfirst]. destruct i as [|i']; simpl in Hi.
    + left. split; [done|congruence].
    + right. exists i'. split; [done|]. split; [split; [done|]|].
      * intros j t'' Hj Ht''. apply (Hfirst (S j)); [lia|done].
      * apply (Hfirst 0%nat t); [lia|done].
  - intros [[-> ->]|(i' & -> & [Hi Hfirst] & Hne)].
    + split; [done|]. intros j t'' Hj. lia.
    + split; [done|]. intros [|j] t'' Hj Ht''; simpl in Ht''.
      * congruence.
      * apply (Hfirst j); [lia|done].
Qed.

Lemma matchStep_eq acc urls t :
  matchStep (acc, urls) t =
  if getBool urls (URL t)
  then (acc ++ [matchedAt t], delete (URL t) urls) else (acc, urls).
Proof. done. Qed.

(** The loop appends to [tabsToCloseNow], for each URL of the set, the
    first tab of the snapshot that has it, and nothing else. *)
Lemma matchLoop_spec (currentTabs : list Tab) :
  forall (acc : list windowTab) (urls : gmap string bool),
  exists new,
    (foldl matchStep (acc, urls) currentTabs).1 = acc ++ new /\
    NoDup (url <$> new) /\
    forall wt, wt ∈ new <->
      exists i t, firstWithURL currentTabs i t /\ wt = matchedAt t /\
                  getBool urls (URL t) = true.
Proof.
  induction currentTabs as [|t rest IH]; intros acc urls.
  - exists []. simpl. rewrite app_nil_r. split; [done|]. split; [constructor|].
    intros wt. split; [by intros ?%not_elem_of_nil|].
    intros (i & t & [Hi _] & _). by rewrite lookup_nil in Hi.
  - change (foldl matchStep (acc, urls) (t :: rest))
      with (foldl matchStep (matchStep (acc, urls) t) rest).
    rewrite matchStep_eq.
    destruct (getBool urls (URL t)) eqn:Hin.
    + destruct (IH (acc ++ [matchedAt t]) (delete (URL t) urls))
        as (new & Hrun & Hnodup & Hnew).
      exists (matchedAt t :: new). rewrite Hrun, <- app_assoc.
      split; [done|]. split.
      * simpl. apply NoDup_cons. split; [|done].
        intros Hdup. apply list_elem_of_fmap in Hdup as (wt & Hurl & Hwt).
        apply Hnew in Hwt as (i & t' & _ & -> & Hb).
        apply getBool_delete in Hb as [Hne _]. simpl in Hurl. congruence.
      * intros wt. rewrite elem_of_cons, Hnew. split.
        -- intros [->|(i & t' & Hfirst & -> & Hb)].
           ++ exists 0%nat, t. rewrite firstWithURL_cons. split; [by left|done].
           ++ apply getBool_delete in Hb as [Hne Hb].
              exists (S i), t'. rewrite firstWithURL_cons.
              split; [|done]. right. exists i. split; [done|]. split; [done|congruence].
        -- intros (i & t' & Hfirst & -> & Hb).
           apply firstWithURL_cons in Hfirst as [[-> ->]|(i' & -> & Hfirst & Hne)].
           ++ by left.
           ++ right. exists i', t'. split; [done|]. split; [done|].
              apply getBool_delete. split; [congruence|done].
    + destruct (IH acc urls) as (new & Hrun & Hnodup & Hnew).
      exists new. split; [done|]. split; [done|].
      intros wt. rewrite Hnew. split.
      * intros (i & t' & Hfirst & -> & Hb).
        exists (S i), t'. rewrite firstWithURL_cons.
        split; [|done]. right. exists i. split; [done|]. split; [done|congruence].
      * intros (i & t' & Hfirst & -> & Hb).
        apply firstWithURL_cons in Hfirst as [[-> ->]|(i' & -> & Hfirst & Hne)].
        -- congruence.
        -- by exists i', t'.
Qed.

(** C6. In a close operation a live tab is matched exactly when its URL
    is in the target set and it is the first tab of the fresh snapshot
    with that URL; so the matched tabs have pairwise different URLs,
    and the close-tab scripts issued are one for each of them. *)
Theorem closeTabsAsync_one_close_per_url (h : Host) (tabsToClose : list Tab)
    (emptyWindows : list Z) (w : World) (currentTabs : list Tab) :
  osascript h (issued w) Enumerate = Some currentTabs ->
  NoDup (url <$> matchTabs (urlSet tabsToClose) currentTabs) /\
  (forall wt, wt ∈ matchTabs (urlSet tabsToClose) currentTabs <->
     exists i t, firstWithURL currentTabs i t /\ wt = matchedAt t /\
                 exists t0, t0 ∈ tabsToClose /\ URL t0 = URL t) /\
  (exists plan windows,
     plan ≡ₚ matchTabs (urlSet tabsToClose) currentTabs /\
     issued (closeTabsAsync h tabsToClose emptyWindows w).2
     = issued w ++ [Enumerate] ++ (closeTabCmd <$> plan)
         ++ (CloseWindow <$> windows)).
Proof.
  intros Hsnap. unfold matchTabs.
  destruct (matchLoop_spec currentTabs [] (urlSet tabsToClose))
    as (new & Hrun & Hnodup & Hnew).
  rewrite Hrun. simpl. split; [done|]. split.
  - intros wt. rewrite Hnew.
    split; intros (i & t & Hfirst & -> & Hb); exists i, t;
      (split; [done|]); (split; [done|]); by apply urlSet_spec.
  - destruct (closeTabsAsync_run h tabsToClose emptyWindows w currentTabs Hsnap)
      as [Hissued _].
    eexists _, _. split; [|exact Hissued].
    unfold matchTabs. rewrite Hrun. simpl. apply sort_Slice_Permutation.
Qed.

Lemma closeTabsAsync_one_close_per_url_witness :
  osascript orderHost (issued World0) Enumerate = Some orderSnapshot /\
  NoDup (url <$> matchTabs (urlSet orderSelection) orderSnapshot) /\
  (forall wt, wt ∈ matchTabs (urlSet orderSelection) orderSnapshot <->
     exists i t, firstWithURL orderSnapshot i t /\ wt = matchedAt t /\
                 exists t0, t0 ∈ orderSelection /\ URL t0 = URL t) /\
  (exists plan windows,
     plan ≡ₚ matchTabs (urlSet orderSelection) orderSnapshot /\
     issued (closeTabsAsync orderHost orderSelection [2; 7] World0).2
     = issued World0 ++ [Enumerate] ++ (closeTabCmd <$> plan)
         ++ (CloseWindow <$> windows)).
Proof.
  split; [reflexivity|].
  apply (closeTabsAsync_one_close_per_url orderHost orderSelection [2; 7] World0
           orderSnapshot).
  reflexivity.
Defined.

(** The snapshot of the example shows the selected URL of tab "b" twice,
    in windows 1 and 2: only the first is matched. *)
Example matchTabs_example :
  matchTabs (urlSet orderSelection) orderSnapshot
  = [ {| window := 1; tab := 2; url := "https://b.example/" |};
      {| window := 1; tab := 5; url := "https://a.example/" |};
      {| window := 2; tab := 1; url := "https://c.example/" |} ].
Proof. vm_compute. reflexivity. Qed.

(** * Further properties of the engine *)

(** ** Windows emptied by the pinned-tab filter *)

Lemma countPerWindow_lookup (sel : Tab -> bool) (allTabs : list Tab) (w : Z) :
  countPerWindow sel allTabs !! w =
  let n := length (filter (fun t => sel t = true /\ WindowIndex t = w) allTabs) in
  if decide (n = 0%nat) then None else Some (Z.of_nat n).
Proof.
  unfold countPerWindow.
  induction allTabs as [|t allTabs IH] using rev_ind.
  { simpl. apply lookup_empty. }
  rewrite foldl_app, filter_app, length_app. simpl.
  set (m := foldl _ ∅ allTabs) in *.
  set (n := length (filter _ allTabs)) in *. simpl in IH.
  rewrite filter_cons, filter_nil.
  destruct (sel t) eqn:Hsel; unfold incr, getZ;
    [destruct (decide (WindowIndex t = w)) as [<-|Hne];
     [rewrite lookup_insert_eq | rewrite lookup_insert_ne by done] |];
    rewrite ?IH; repeat case_decide; simpl in *;
    try (exfalso; (tauto || lia)); try done; f_equal; lia.
Qed.

Lemma windowTotalCount_lookup (allTabs : list Tab) (w : Z) :
  windowTotalCount allTabs !! w =
  let n := length (tabsInWindow allTabs w) in
  if decide (n = 0%nat) then None else Some (Z.of_nat n).
Proof.
  change (windowTotalCount allTabs) with (countPerWindow (fun _ => true) allTabs).
  rewrite countPerWindow_lookup. unfold tabsInWindow.
  replace (filter (fun t => true = true /\ WindowIndex t = w) allTabs)
    with (filter (fun t => WindowIndex t = w) allTabs); [done|].
  apply list_filter_iff. tauto.
Qed.

Lemma windowPinnedCount_lookup pinned (allTabs : list Tab) (w : Z) :
  windowPinnedCount pinned allTabs !! w =
  let n := length (filter (fun t => isPinnedTab pinned t = true /\ WindowIndex t = w)
                          allTabs) in
  if decide (n = 0%nat) then None else Some (Z.of_nat n).
Proof. apply (countPerWindow_lookup (isPinnedTab pinned)). Qed.

Lemma filter_all_length (P Q : Tab -> Prop) `{!forall t, Decision (P t)}
    `{!forall t, Decision (Q t)} (l : list Tab) :
  length (filter (fun t => P t /\ Q t) l) = length (filter Q l) <->
  forall t, t ∈ l -> Q t -> P t.
Proof.
  induction l as [|t l IH].
  - split; [|done]. intros _ t Hin. by apply not_elem_of_nil in Hin.
  - rewrite !filter_cons.
    assert (Hle : (length (filter (fun t => P t /\ Q t) l)
                   <= length (filter Q l))%nat).
    { clear IH. induction l as [|x l IHl]; [done|]. rewrite !filter_cons.
      repeat case_decide; simpl; try lia; tauto. }
    destruct (decide (Q t)) as [HQ|HQ]; destruct (decide (P t)) as [HP|HP].
    + rewrite decide_True by done. simpl. split.
      * intros Hlen t' Hin HQ'. apply elem_of_cons in Hin as [->|Hin]; [done|].
        apply IH; [lia|done|done].
      * intros Hall. f_equal. apply IH. intros t' Hin. apply Hall. by right.
    + rewrite decide_False by tauto. simpl. split; [lia|].
      intros Hall. exfalso. apply HP. apply Hall; [by left|done].
    + rewrite decide_False by tauto. rewrite IH. split.
      * intros Hall t' Hin HQ'. apply elem_of_cons in Hin as [->|Hin]; [done|].
        by apply Hall.
      * intros Hall t' Hin. apply Hall. by right.
    + rewrite decide_False by tauto. rewrite IH. split.
      * intros Hall t' Hin HQ'. apply elem_of_cons in Hin as [->|Hin]; [done|].
        by apply Hall.
      * intros Hall t' Hin. apply Hall. by right.
Qed.

Lemma emptyWindowsOf_spec (total pinnedCnt : gmap Z Z) :
  NoDup (emptyWindowsOf total pinnedCnt) /\
  forall w, w ∈ emptyWindowsOf total pinnedCnt <->
    exists n, total !! w = Some n /\ 0 < n /\ getZ pinnedCnt w = n.
Proof.
  unfold emptyWindowsOf.
  apply (map_fold_weak_ind
    (fun (r : list Z) (m : gmap Z Z) =>
       NoDup r /\
       forall w, w ∈ r <-> exists n, m !! w = Some n /\ 0 < n /\ getZ pinnedCnt w = n)).
  - split; [constructor|]. intros w. split; [by intros ?%not_elem_of_nil|].
    intros (n & Hn & _). by rewrite lookup_empty in Hn.
  - intros i x m r Hfresh [Hnodup Hr].
    assert (Hi : i ∉ r).
    { intros Hin. apply Hr in Hin as (n & Hn & _). congruence. }
    destruct (Z.gtb_spec x 0) as [Hpos|Hnonpos];
      destruct (Z.eqb_spec (getZ pinnedCnt i) x) as [Heq|Hneq]; simpl.
    1:{ split.
        - apply NoDup_app. split; [done|]. split; [|apply NoDup_singleton].
          intros y Hy ->%list_elem_of_singleton. done.
        - intros w. rewrite elem_of_app, list_elem_of_singleton, Hr.
          destruct (decide (i = w)) as [->|Hne].
          + rewrite lookup_insert_eq. split.
            * intros _. exists x. split; [done|]. split; [lia|done].
            * by right.
          + rewrite lookup_insert_ne by done. split; [|by left].
            intros [?|?]; [done|congruence]. }
    all: split; [done|]; intros w; rewrite Hr;
      destruct (decide (i = w)) as [->|Hne];
      [rewrite lookup_insert_eq, Hfresh
      |by rewrite lookup_insert_ne by done];
      split; [by intros (n & ? & _)|intros (n & [= <-] & ? & ?); lia].
Qed.

Lemma filterPinnedTabs_emptyWindows_elem (allTabs : list Tab) (w : Z) :
  w ∈ (filterPinnedTabs allTabs).2 <->
  (exists t, t ∈ allTabs /\ WindowIndex t = w) /\
  (forall t, t ∈ allTabs -> WindowIndex t = w ->
     TabIndex t <= 4 /\ isPinned allTabs (URL t) = true).
Proof.
  unfold filterPinnedTabs. simpl.
  destruct (emptyWindowsOf_spec (windowTotalCount allTabs)
              (windowPinnedCount (pinnedURLs allTabs) allTabs)) as [_ Hspec].
  rewrite Hspec. clear Hspec.
  unfold getZ. rewrite windowTotalCount_lookup, windowPinnedCount_lookup.
  unfold tabsInWindow. simpl.
  pose proof (filter_all_length
    (fun t => isPinnedTab (pinnedURLs allTabs) t = true)
    (fun t => WindowIndex t = w) allTabs) as Hall.
  assert (Hpin : forall t, isPinnedTab (pinnedURLs allTabs) t = true <->
                   TabIndex t <= 4 /\ isPinned allTabs (URL t) = true).
  { intros t. unfold isPinnedTab, isPinned. rewrite andb_true_iff, Z.leb_le. done. }
  set (total := length (filter (fun t => WindowIndex t = w) allTabs)) in *.
  set (pinned := length (filter (fun t => isPinnedTab (pinnedURLs allTabs) t = true
                                           /\ WindowIndex t = w) allTabs)) in *.
  assert (Hnonempty : total <> 0%nat <-> exists t, t ∈ allTabs /\ WindowIndex t = w).
  { unfold total. split.
    - destruct (filter _ allTabs) as [|t l] eqn:Hf; [done|]. intros _.
      assert (t ∈ filter (fun t => WindowIndex t = w) allTabs) as Hin
        by (rewrite Hf; by left).
      apply list_elem_of_filter in Hin as [? ?]. by exists t.
    - intros (t & Hin & Hw) Hlen.
      assert (t ∈ filter (fun t => WindowIndex t = w) allTabs) as Hin'
        by by apply list_elem_of_filter.
      apply length_zero_iff_nil in Hlen. rewrite Hlen in Hin'.
      by apply not_elem_of_nil in Hin'. }
  split.
  - intros (n & Hn & Hpos & Hcnt).
    destruct (decide (total = 0%nat)) as [Htot|Htot]; [done|]. injection Hn as <-.
    split; [by apply Hnonempty|].
    intros t Hin Hw. apply Hpin. apply Hall; [|done|done].
    destruct (decide (pinned = 0%nat)); simpl in Hcnt; lia.
  - intros [Hex Hallp]. exists (Z.of_nat total).
    apply Hnonempty in Hex.
    assert (pinned = total) as Heq.
    { apply Hall. intros t Hin Hw. apply Hpin. by apply Hallp. }
    rewrite Heq.
    destruct (decide (total = 0%nat)); [done|]. split; [done|]. split; [lia|done].
Qed.

(** X1. A window is reported as emptied exactly when it has at least
    one tab and every one of its tabs is removed by the filter (a tab at
    an index up to 4 with a pinned URL); no window is reported twice. *)
Theorem filterPinnedTabs_emptyWindows (allTabs : list Tab) :
  NoDup (filterPinnedTabs allTabs).2 /\
  forall w, w ∈ (filterPinnedTabs allTabs).2 <->
    (exists t, t ∈ allTabs /\ WindowIndex t = w) /\
    (forall t, t ∈ allTabs -> WindowIndex t = w ->
       TabIndex t <= 4 /\ isPinned allTabs (URL t) = true).
Proof.
  split; [|apply filterPinnedTabs_emptyWindows_elem].
  unfold filterPinnedTabs. simpl. apply emptyWindowsOf_spec.
Qed.

Lemma filterPinnedTabs_result_elem (allTabs : list Tab) (t : Tab) :
  t ∈ (filterPinnedTabs allTabs).1 <->
  t ∈ allTabs /\ ~ (TabIndex t <= 4 /\ isPinned allTabs (URL t) = true).
Proof.
  unfold filterPinnedTabs. simpl.
  rewrite list_elem_of_filter. unfold isPinnedTab, isPinned.
  rewrite andb_false_iff, Z.leb_gt.
  split; intros [H1 H2]; split; try done.
  - intros [Hle Hb]. destruct H1 as [?|Hf]; [lia|congruence].
  - destruct (Z.le_gt_cases (TabIndex t) 4) as [Hle|Hgt]; [|left; lia].
    right. apply not_true_is_false. tauto.
Qed.

Lemma elem_of_allWindows (allTabs : list Tab) (w : Z) :
  w ∈ allWindows allTabs <-> exists t, t ∈ allTabs /\ WindowIndex t = w.
Proof.
  unfold allWindows. rewrite elem_of_list_to_set, list_elem_of_fmap.
  split; intros (t & ? & ?); by exists t.
Qed.

(** X2. The filter splits the windows of the snapshot in two: a window
    either keeps at least one tab in the filtered list or is reported as
    emptied, never both; only windows of the snapshot are reported, and
    the filtered list keeps the snapshot's order. *)
Theorem filterPinnedTabs_windows_partition (allTabs : list Tab) :
  (filterPinnedTabs allTabs).1 `sublist_of` allTabs /\
  (forall t, t ∈ (filterPinnedTabs allTabs).1 ->
     WindowIndex t ∉ (filterPinnedTabs allTabs).2) /\
  (forall w, w ∈ allWindows allTabs ->
     w ∈ (filterPinnedTabs allTabs).2 \/
     exists t, t ∈ (filterPinnedTabs allTabs).1 /\ WindowIndex t = w) /\
  (forall w, w ∈ (filterPinnedTabs allTabs).2 -> w ∈ allWindows allTabs).
Proof.
  split; [apply sublist_filter|]. split; [|split].
  - intros t Ht Hw. apply filterPinnedTabs_result_elem in Ht as [Hin Hkeep].
    apply filterPinnedTabs_emptyWindows_elem in Hw as [_ Hall].
    apply Hkeep. by apply Hall.
  - intros w Hw.
    destruct (decide (Forall (fun t => TabIndex t <= 4 /\ isPinned allTabs (URL t) = true)
                             (tabsInWindow allTabs w))) as [Hall|Hsome].
    + left. apply filterPinnedTabs_emptyWindows_elem.
      split; [by apply elem_of_allWindows|].
      intros t Hin Hwt. rewrite Forall_forall in Hall. apply Hall.
      by apply list_elem_of_filter.
    + right. apply not_Forall_Exists in Hsome; [|apply _].
      apply Exists_exists in Hsome as (t & Hin & Hkeep).
      apply list_elem_of_filter in Hin as [Hwt Hin].
      exists t. split; [|done]. by apply filterPinnedTabs_result_elem.
  - intros w Hw. apply filterPinnedTabs_emptyWindows_elem in Hw as [Hex _].
    by apply elem_of_allWindows.
Qed.

Lemma filter_all {A} (P : A -> Prop) `{!forall x, Decision (P x)} (l : list A) :
  (forall x, x ∈ l -> P x) -> filter P l = l.
Proof.
  induction l as [|x l IH]; intros Hall; [done|].
  rewrite filter_cons_True by (apply Hall; by left).
  f_equal. apply IH. intros y Hy. apply Hall. by right.
Qed.

Lemma windowsAt_allWindows allTabs u p : windowsAt allTabs u p ⊆ allWindows allTabs.
Proof.
  intros w. unfold windowsAt, allWindows, tabsAt.
  rewrite !elem_of_list_to_set, !list_elem_of_fmap.
  intros (t & -> & Hin). exists t. split; [done|].
  by apply list_elem_of_filter in Hin as [_ Hin].
Qed.

(** X3. In a snapshot with fewer than three windows no URL reaches the
    three-window threshold: the filter returns the tab list unchanged
    and reports no window. *)
Theorem filterPinnedTabs_few_windows (allTabs : list Tab) :
  WellFormed allTabs ->
  (size (allWindows allTabs) < 3)%nat ->
  filterPinnedTabs allTabs = (allTabs, []).
Proof.
  intros Hwf Hfew.
  assert (Hnone : forall u, isPinned allTabs u = false).
  { intros u. apply not_true_is_false. intros Hpin.
    apply isPinned_count in Hpin as (p & _ & Hthree).
    rewrite <- size_windowsAt in Hthree by done.
    pose proof (subseteq_size _ _ (windowsAt_allWindows allTabs u p)). lia. }
  assert (Hresult : (filterPinnedTabs allTabs).1 = allTabs).
  { unfold filterPinnedTabs. simpl. apply filter_all.
    intros t _. unfold isPinnedTab. fold (isPinned allTabs (URL t)).
    rewrite Hnone. apply andb_false_r. }
  assert (Hempty : (filterPinnedTabs allTabs).2 = []).
  { destruct (filterPinnedTabs allTabs).2 as [|w ws] eqn:Hws; [done|].
    assert (w ∈ (filterPinnedTabs allTabs).2) as Hw by (rewrite Hws; by left).
    apply filterPinnedTabs_emptyWindows_elem in Hw as [(t & Hin & Hwt) Hall].
    destruct (Hall t Hin Hwt) as [_ Hpin]. rewrite Hnone in Hpin. done. }
  destruct (filterPinnedTabs allTabs) as [result emptyWindows].
  simpl in *. by subst.
Qed.

Lemma filterPinnedTabs_few_windows_witness :
  WellFormed exampleTabs /\
  (size (allWindows exampleTabs) < 3)%nat /\
  filterPinnedTabs exampleTabs = (exampleTabs, []).
Proof.
  assert (Hwf : WellFormed exampleTabs).
  { apply (bool_decide_unpack _). vm_compute. exact I. }
  assert (Hfew : (size (allWindows exampleTabs) < 3)%nat).
  { apply (bool_decide_unpack _). vm_compute. exact I. }
  split; [exact Hwf|]. split; [exact Hfew|].
  exact (filterPinnedTabs_few_windows exampleTabs Hwf Hfew).
Defined.

(** ** More on the duplicate detector *)

Lemma markDuplicate_length ToLower (tabs : list Tab) (i : nat) :
  length (markDuplicate ToLower tabs i) = length tabs.
Proof.
  unfold markDuplicate. destruct (tabs !! i); [|done].
  destruct (scanEarlier _ _ _ _); [|done]. by rewrite length_insert.
Qed.

Lemma findDuplicates_length ToLower (tabs : list Tab) :
  length (findDuplicates ToLower tabs) = length tabs.
Proof.
  unfold findDuplicates. generalize (seq 0 (length tabs)). intros idxs.
  revert tabs. induction idxs as [|i idxs IH]; intros tabs; [done|].
  simpl. by rewrite IH, markDuplicate_length.
Qed.

Lemma annotated_fields ToLower (tabs : list Tab) (i : nat) (t : Tab) :
  let t' := annotated ToLower tabs i t in
  WindowIndex t' = WindowIndex t /\ TabIndex t' = TabIndex t /\
  Title t' = Title t /\ URL t' = URL t /\
  LastVisit t' = LastVisit t /\ IsOld t' = IsOld t.
Proof. unfold annotated. by destruct (scanEarlier _ _ _ _). Qed.

Lemma findDuplicates_urls ToLower (tabs : list Tab) :
  URL <$> findDuplicates ToLower tabs = URL <$> tabs.
Proof.
  apply list_eq. intros i. rewrite !list_lookup_fmap.
  destruct (tabs !! i) as [t|] eqn:Hi.
  - rewrite (findDuplicates_lookup ToLower tabs i t Hi). simpl. f_equal.
    apply annotated_fields.
  - apply lookup_ge_None in Hi.
    rewrite (proj2 (lookup_ge_None _ _)); [done|].
    by rewrite findDuplicates_length.
Qed.

Lemma scanEarlier_is_Some ToLower (tabs : list Tab) (i : nat) (t : Tab) :
  tabs !! i = Some t ->
  (is_Some (scanEarlier ToLower (URL t) (take i tabs) 0) <->
     exists j, leastMatch ToLower tabs i j) /\
  (scanEarlier ToLower (URL t) (take i tabs) 0 = None <->
     noMatchBefore ToLower tabs i i).
Proof.
  intros Hi.
  destruct (scanEarlier ToLower (URL t) (take i tabs) 0) as [idx|] eqn:Hscan.
  - apply scanEarlier_Some in Hscan as (k & tab_k & -> & Hk & Hm & Hleast).
    apply lookup_take_Some in Hk as [Hk Hlt].
    assert (Hlm : leastMatch ToLower tabs i k).
    { split; [done|]. split; [by exists t, tab_k|].
      intros k' t_i t_k' Hlt' Hti Htk'. simplify_eq.
      apply (Hleast k' t_k'); [done|]. apply lookup_take_Some. split; [done|lia]. }
    split; split.
    + intros _. by exists k.
    + done.
    + done.
    + intros Hnone. exfalso. by apply (Hnone k t tab_k).
  - pose proof (scanEarlier_None _ _ _ _ Hscan) as Hnone.
    assert (Hnm : noMatchBefore ToLower tabs i i).
    { intros k t_i t_k Hlt Hti Htk. simplify_eq.
      apply (Hnone k t_k). apply lookup_take_Some. by split. }
    split; split.
    + by intros [? ?].
    + intros (j & Hj & (t_i & t_j & Hti & Htj & Hm) & _). exfalso.
      by apply (Hnm j t_i t_j).
    + done.
    + done.
Qed.

(** X4. [findDuplicates] returns a list of the same length in which
    every tab keeps its window, index, title, URL, last visit and stale
    flag.  A tab with no earlier match is returned untouched (so the
    first tab always is); a tab with an earlier match is selected for
    closing. *)
Theorem findDuplicates_preserves (ToLower : string -> string) (tabs : list Tab) :
  length (findDuplicates ToLower tabs) = length tabs /\
  forall i t, tabs !! i = Some t ->
    exists t',
      findDuplicates ToLower tabs !! i = Some t' /\
      WindowIndex t' = WindowIndex t /\ TabIndex t' = TabIndex t /\
      Title t' = Title t /\ URL t' = URL t /\
      LastVisit t' = LastVisit t /\ IsOld t' = IsOld t /\
      (noMatchBefore ToLower tabs i i -> t' = t) /\
      (i = 0%nat -> t' = t) /\
      ((exists j, leastMatch ToLower tabs i j) -> Selected t' = true).
Proof.
  split; [apply findDuplicates_length|].
  intros i t Hi. exists (annotated ToLower tabs i t).
  split; [by apply findDuplicates_lookup|].
  destruct (annotated_fields ToLower tabs i t) as (? & ? & ? & ? & ? & ?).
  repeat (split; [done|]).
  destruct (scanEarlier_is_Some ToLower tabs i t Hi) as [Hsome Hnone].
  unfold annotated. split; [|split].
  - intros Hnm. apply Hnone in Hnm. by rewrite Hnm.
  - intros ->. by rewrite take_0.
  - intros Hex. apply Hsome in Hex as [idx ->]. done.
Qed.

Lemma findDuplicates_preserves_witness :
  length (findDuplicates strings.ToLowerASCII exampleTabs) = length exampleTabs /\
  forall i t, exampleTabs !! i = Some t ->
    exists t',
      findDuplicates strings.ToLowerASCII exampleTabs !! i = Some t' /\
      WindowIndex t' = WindowIndex t /\ TabIndex t' = TabIndex t /\
      Title t' = Title t /\ URL t' = URL t /\
      LastVisit t' = LastVisit t /\ IsOld t' = IsOld t /\
      (noMatchBefore strings.ToLowerASCII exampleTabs i i -> t' = t) /\
      (i = 0%nat -> t' = t) /\
      ((exists j, leastMatch strings.ToLowerASCII exampleTabs i j) ->
       Selected t' = true).
Proof. exact (findDuplicates_preserves strings.ToLowerASCII exampleTabs). Defined.

(** X5. [findDuplicates] is idempotent: running it on its own result
    changes nothing. *)
Theorem findDuplicates_idempotent (ToLower : string -> string) (tabs : list Tab) :
  findDuplicates ToLower (findDuplicates ToLower tabs) = findDuplicates ToLower tabs.
Proof.
  apply list_eq. intros i.
  destruct (tabs !! i) as [t|] eqn:Hi.
  - pose proof (findDuplicates_lookup ToLower tabs i t Hi) as H1.
    rewrite (findDuplicates_lookup ToLower _ i _ H1), H1. f_equal.
    unfold annotated at 1.
    assert (Hscan : scanEarlier ToLower (URL (annotated ToLower tabs i t))
                      (take i (findDuplicates ToLower tabs)) 0
                    = scanEarlier ToLower (URL t) (take i tabs) 0).
    { replace (URL (annotated ToLower tabs i t)) with (URL t)
        by (symmetry; apply annotated_fields).
      apply scanEarlier_urls. by rewrite !fmap_take, findDuplicates_urls. }
    rewrite Hscan. unfold annotated.
    by destruct (scanEarlier ToLower (URL t) (take i tabs) 0).
  - apply lookup_ge_None in Hi.
    rewrite !(proj2 (lookup_ge_None _ _)); [done|..];
      by rewrite ?findDuplicates_length.
Qed.

(** ** More on the edit distance *)

Lemma min_foldl_spec (rest : list Z) :
  forall n0 : Z,
    let m := foldl (fun m n => if n <? m then n else m) n0 rest in
    m ∈ n0 :: rest /\ forall x, x ∈ n0 :: rest -> m <= x.
Proof.
  induction rest as [|n rest IH]; intros n0; simpl.
  - split; [by left|]. intros x ->%list_elem_of_singleton. lia.
  - destruct (IH (if n <? n0 then n else n0)) as [Hin Hle]. split.
    + apply elem_of_cons in Hin as [Hin|Hin]; [|by do 2 right].
      rewrite Hin. destruct (n <? n0); [right; by left|by left].
    + intros x Hx.
      assert (Hhead : foldl (fun m n => if n <? m then n else m)
                        (if n <? n0 then n else n0) rest
                      <= (if n <? n0 then n else n0)) by (apply Hle; by left).
      apply elem_of_cons in Hx as [Hx|Hx].
      * destruct (Z.ltb_spec n n0); lia.
      * apply elem_of_cons in Hx as [Hx|Hx].
        -- destruct (Z.ltb_spec n n0); lia.
        -- apply Hle. by right.
Qed.

(** X6. The variadic [min] returns 0 for no argument; otherwise it
    returns one of its arguments, and none of them is smaller. *)
Theorem min_spec (nums : list Z) :
  (nums = [] -> min nums = 0) /\
  (nums <> [] -> min nums ∈ nums /\ forall x, x ∈ nums -> min nums <= x).
Proof.
  split; [by intros ->|].
  destruct nums as [|n0 rest]; [done|]. intros _. apply min_foldl_spec.
Qed.

Lemma min_spec_witness :
  ([3; 1; 2] = [] -> min [3; 1; 2] = 0) /\
  ([3; 1; 2] <> [] ->
   min [3; 1; 2] ∈ [3; 1; 2] /\ forall x, x ∈ [3; 1; 2] -> min [3; 1; 2] <= x).
Proof. exact (min_spec [3; 1; 2]). Defined.

Lemma min3_bounds (a b c : Z) :
  (min [a; b; c] = a \/ min [a; b; c] = b \/ min [a; b; c] = c) /\
  min [a; b; c] <= a /\ min [a; b; c] <= b /\ min [a; b; c] <= c.
Proof.
  destruct (min_foldl_spec [b; c] a) as [Hin Hle].
  change (foldl _ a [b; c]) with (min [a; b; c]) in *.
  split.
  - rewrite !elem_of_cons in Hin. destruct Hin as [?|[?|[?|Hin]]]; auto.
    by apply not_elem_of_nil in Hin.
  - repeat split; apply Hle; rewrite !elem_of_cons; auto.
Qed.

Lemma lev_bounds s1 s2 i :
  forall j, Z.abs (Z.of_nat i - Z.of_nat j) <= lev s1 s2 i j
            /\ lev s1 s2 i j <= Z.max (Z.of_nat i) (Z.of_nat j).
Proof.
  induction i as [|i IHi]; intros j.
  - rewrite lev_0_l. lia.
  - induction j as [|j IHj].
    + rewrite lev_0_r. lia.
    + rewrite lev_S_S.
      set (cost := if bool_decide (byteAt s1 i = byteAt s2 j) then 0 else 1).
      assert (0 <= cost <= 1) by (unfold cost; case_bool_decide; lia).
      pose proof (IHi (S j)). pose proof (IHi j).
      destruct (min3_bounds (lev s1 s2 i (S j) + 1) (lev s1 s2 (S i) j + 1)
                            (lev s1 s2 i j + cost)) as [Hcase Hle].
      lia.
Qed.

(** X7. The distance the matrix yields lies between the difference of
    the two lengths and the greater length. *)
Theorem levenshtein_bounds (s1 s2 : string) :
  Z.abs (Z.of_nat (String.length s1) - Z.of_nat (String.length s2))
    <= levenshtein s1 s2
  /\ levenshtein s1 s2
     <= max (Z.of_nat (String.length s1)) (Z.of_nat (String.length s2)).
Proof.
  rewrite levenshtein_lev.
  destruct (lev_bounds s1 s2 (String.length s1) (String.length s2)) as [Hlo Hhi].
  split; [done|]. unfold max.
  destruct (Z.gtb_spec (Z.of_nat (String.length s1)) (Z.of_nat (String.length s2)));
    lia.
Qed.

Lemma lev_diag_zero s1 s2 i :
  lev s1 s2 i i = 0 <-> forall k, (k < i)%nat -> byteAt s1 k = byteAt s2 k.
Proof.
  induction i as [|i IH].
  - rewrite lev_0_l. split; [intros _ k; lia|done].
  - rewrite lev_S_S.
    set (cost := if bool_decide (byteAt s1 i = byteAt s2 i) then 0 else 1).
    pose proof (lev_bounds s1 s2 i (S i)) as H1.
    pose proof (lev_bounds s1 s2 (S i) i) as H2.
    pose proof (lev_bounds s1 s2 i i) as H3.
    destruct (min3_bounds (lev s1 s2 i (S i) + 1) (lev s1 s2 (S i) i + 1)
                          (lev s1 s2 i i + cost)) as [Hcase Hle].
    split.
    + intros Hzero k Hk.
      assert (lev s1 s2 i i = 0 /\ cost = 0) as [Hi Hc]
        by (unfold cost in *; case_bool_decide; lia).
      destruct (decide (k = i)) as [->|Hne].
      * unfold cost in Hc. by case_bool_decide.
      * apply IH; [done|lia].
    + intros Heq.
      assert (lev s1 s2 i i = 0) as Hi by (apply IH; intros k Hk; apply Heq; lia).
      assert (cost = 0) as Hc.
      { unfold cost. rewrite bool_decide_true; [done|]. apply Heq. lia. }
      lia.
Qed.

Lemma get_ge_None (s : string) :
  forall n, (String.length s <= n)%nat -> String.get n s = None.
Proof.
  induction s as [|c s IH]; intros n Hn; [by destruct n|].
  destruct n as [|n]; simpl in *; [lia|]. apply IH. lia.
Qed.

Lemma get_lt_Some (s : string) :
  forall n, (n < String.length s)%nat -> is_Some (String.get n s).
Proof.
  induction s as [|c s IH]; intros n Hn; simpl in *; [lia|].
  destruct n as [|n]; [by eexists|]. apply IH. lia.
Qed.

(** X8. The distance the matrix yields is 0 exactly for equal strings. *)
Theorem levenshtein_zero_iff (s1 s2 : string) :
  levenshtein s1 s2 = 0 <-> s1 = s2.
Proof.
  rewrite levenshtein_lev. split.
  - intros Hzero.
    pose proof (lev_bounds s1 s2 (String.length s1) (String.length s2)) as [Hlo _].
    assert (String.length s1 = String.length s2) as Hlen by lia.
    rewrite <- Hlen in Hzero.
    pose proof (proj1 (lev_diag_zero s1 s2 (String.length s1)) Hzero) as Hget.
    apply String.get_correct. intros n.
    destruct (decide (n < String.length s1)%nat) as [Hn|Hn].
    + by apply Hget.
    + rewrite !get_ge_None by lia. done.
  - intros ->. by apply lev_diag_zero.
Qed.

(** ** More on URL similarity *)

Lemma append_nil_r (s : string) : s +:+ "" = s.
Proof.
  induction s as [|c s IH]; [done|].
  change (String c (s +:+ "") = String c s). by f_equal.
Qed.

Lemma append_assoc (s1 s2 s3 : string) : (s1 +:+ s2) +:+ s3 = s1 +:+ (s2 +:+ s3).
Proof.
  induction s1 as [|c s1 IH]; [done|].
  change (String c ((s1 +:+ s2) +:+ s3) = String c (s1 +:+ (s2 +:+ s3))).
  by f_equal.
Qed.

Lemma genSplit_step (sep : string) (n : nat) (c : ascii) (s cur : string) :
  strings.genSplit sep (S n) (String c s) 0 cur =
  if strings.HasPrefix (String c s) sep
  then cur :: strings.genSplit sep n s (String.length sep - 1) ""
  else strings.genSplit sep (S n) s 0 (cur +:+ String c "").
Proof. done. Qed.

(** The piece being collected only prefixes the first piece returned. *)
Lemma genSplit_cur (sep : string) (s : string) :
  forall (n : nat) (cur : string),
    strings.genSplit sep n s 0 cur =
    match strings.genSplit sep n s 0 "" with
    | h :: t => (cur +:+ h) :: t
    | [] => []
    end.
Proof.
  induction s as [|c s IH]; intros n cur.
  - destruct n; simpl; by rewrite ?append_nil_r.
  - destruct n as [|n]; [done|]. rewrite !genSplit_step.
    destruct (strings.HasPrefix (String c s) sep).
    + by rewrite append_nil_r.
    + rewrite (IH (S n) (cur +:+ String c "")).
      rewrite (IH (S n) ("" +:+ String c "")).
      destruct (strings.genSplit sep (S n) s 0 ""); [done|].
      by rewrite append_assoc.
Qed.

Lemma TrimPrefix_absent (s p : string) :
  String.prefix p s = false -> strings.TrimPrefix s p = s.
Proof. unfold strings.TrimPrefix, strings.HasPrefix. by intros ->. Qed.

(** What is left of [extractDomain] and [extractPath] once the scheme
    and a leading [www.] are gone. *)
Lemma variants_domain_path ToLower (rest u : string) :
  String.prefix "www." rest = false ->
  String.prefix "https://" rest = false ->
  u ∈ variants rest ->
  extractDomain ToLower u
  = match strings.Split rest "/" with p0 :: _ => ToLower p0 | [] => "" end /\
  extractPath u
  = match strings.SplitN rest "/" 2 with
    | _ :: q1 :: _ => "/" +:+ strings.TrimSuffix q1 "/"
    | _ => ""
    end.
Proof.
  intros Hwww Hhttps Hu. unfold variants in Hu.
  set (D := fun s => match strings.Split s "/" with
                     | p0 :: _ => ToLower p0 | [] => "" end).
  set (P := fun s => match strings.SplitN s "/" 2 with
                     | _ :: q1 :: _ => "/" +:+ strings.TrimSuffix q1 "/"
                     | _ => "" end).
  assert (Hpw : P ("www." +:+ rest) = P rest).
  { unfold P, strings.SplitN.
    change (strings.genSplit "/" (2 - 1) ("www." +:+ rest) 0 "")
      with (strings.genSplit "/" 1 rest 0 "www.").
    rewrite (genSplit_cur "/" rest 1 "www.").
    change (2 - 1)%nat with 1%nat.
    by destruct (strings.genSplit "/" 1 rest 0 "") as [|? [|? ?]]. }
  (* the literal prefixes compute away; the tail is examined only for
     the two trims below *)
  assert (Hd1 : extractDomain ToLower ("http://" +:+ rest)
                = D (strings.TrimPrefix (strings.TrimPrefix rest "https://") "www."))
    by (destruct rest; reflexivity).
  assert (Hd2 : extractDomain ToLower ("http://www." +:+ rest) = D rest)
    by (destruct rest; reflexivity).
  assert (Hd3 : extractDomain ToLower ("https://" +:+ rest)
                = D (strings.TrimPrefix rest "www."))
    by (destruct rest; reflexivity).
  assert (Hd4 : extractDomain ToLower ("https://www." +:+ rest) = D rest)
    by (destruct rest; reflexivity).
  assert (Hp1 : extractPath ("http://" +:+ rest) = P rest)
    by (destruct rest; reflexivity).
  assert (Hp2 : extractPath ("http://www." +:+ rest) = P ("www." +:+ rest))
    by (destruct rest; reflexivity).
  assert (Hp3 : extractPath ("https://" +:+ rest) = P rest)
    by (destruct rest; reflexivity).
  assert (Hp4 : extractPath ("https://www." +:+ rest) = P ("www." +:+ rest))
    by (destruct rest; reflexivity).
  rewrite (TrimPrefix_absent rest "https://" Hhttps) in Hd1.
  rewrite (TrimPrefix_absent rest "www." Hwww) in Hd1, Hd3.
  rewrite Hpw in Hp2, Hp4.
  rewrite !elem_of_cons in Hu.
  destruct Hu as [->|[->|[->|[->|Hu]]]]; [done..|by apply not_elem_of_nil in Hu].
Qed.

(** X9. The scheme and a leading [www.] do not matter: any two of the
    four spellings of an address (one that does not itself start with
    [www.] or [https://], and has a domain) are similar. *)
Theorem areSimilarURLs_variants (ToLower : string -> string) (rest u1 u2 : string) :
  String.prefix "www." rest = false ->
  String.prefix "https://" rest = false ->
  extractDomain ToLower ("https://" +:+ rest) <> "" ->
  u1 ∈ variants rest -> u2 ∈ variants rest ->
  areSimilarURLs ToLower u1 u2 = true.
Proof.
  intros Hwww Hhttps Hdom Hu1 Hu2.
  destruct (variants_domain_path ToLower rest u1 Hwww Hhttps Hu1) as [Hd1 Hp1].
  destruct (variants_domain_path ToLower rest u2 Hwww Hhttps Hu2) as [Hd2 Hp2].
  destruct (variants_domain_path ToLower rest ("https://" +:+ rest) Hwww Hhttps)
    as [Hd0 _].
  { unfold variants. rewrite !elem_of_cons. auto. }
  unfold areSimilarURLs. rewrite Hd1, Hd2, Hp1, Hp2, <- Hd0.
  rewrite !bool_decide_false by done. simpl.
  by rewrite !bool_decide_true by done.
Qed.

Lemma areSimilarURLs_variants_witness :
  String.prefix "www." "example.com/article" = false /\
  String.prefix "https://" "example.com/article" = false /\
  extractDomain strings.ToLowerASCII ("https://" +:+ "example.com/article") <> "" /\
  "http://www.example.com/article" ∈ variants "example.com/article" /\
  "https://example.com/article" ∈ variants "example.com/article" /\
  areSimilarURLs strings.ToLowerASCII "http://www.example.com/article"
                 "https://example.com/article" = true.
Proof.
  assert (H1 : String.prefix "www." "example.com/article" = false) by reflexivity.
  assert (H2 : String.prefix "https://" "example.com/article" = false) by reflexivity.
  assert (H3 : extractDomain strings.ToLowerASCII ("https://" +:+ "example.com/article")
               <> "") by (vm_compute; discriminate).
  assert (H4 : "http://www.example.com/article" ∈ variants "example.com/article")
    by (apply (bool_decide_unpack _); vm_compute; exact I).
  assert (H5 : "https://example.com/article" ∈ variants "example.com/article")
    by (apply (bool_decide_unpack _); vm_compute; exact I).
  repeat (split; [assumption|]).
  exact (areSimilarURLs_variants strings.ToLowerASCII _ _ _ H1 H2 H3 H4 H5).
Defined.

(** X10. A URL with no path and a URL with a path, even the bare [/],
    are never similar, whatever [strings.ToLower] does to the other
    strings, as long as it maps the empty string to itself and no other
    string to it (as Go's does): [https://a.com] and [https://a.com/] are
    not taken for duplicates of each other. *)
Theorem areSimilarURLs_no_path (ToLower : string -> string) (u1 u2 : string) :
  ToLower "" = "" ->
  (forall s, s <> "" -> ToLower s <> "") ->
  extractPath u1 = "" -> extractPath u2 <> "" ->
  areSimilarURLs ToLower u1 u2 = false /\
  areSimilarURLs ToLower u2 u1 = false.
Proof.
  intros Hempty Hnonempty Hp1 Hp2.
  assert (Hne : ToLower (extractPath u2) <> "") by by apply Hnonempty.
  assert (Hlen : String.length (ToLower (extractPath u2)) <> 0%nat).
  { by destruct (ToLower (extractPath u2)). }
  unfold areSimilarURLs, calculateSimilarity. rewrite Hp1, Hempty.
  split.
  - destruct (_ || _); [done|]. destruct (negb _); [done|].
    rewrite bool_decide_false by done.
    rewrite bool_decide_false by done. done.
  - destruct (_ || _); [done|]. destruct (negb _); [done|].
    rewrite bool_decide_false by done.
    rewrite bool_decide_false by done.
    rewrite (bool_decide_false (String.length _ = 0%nat)) by done. done.
Qed.

Lemma areSimilarURLs_no_path_witness :
  strings.ToLowerASCII "" = "" /\
  (forall s, s <> "" -> strings.ToLowerASCII s <> "") /\
  extractPath "https://a.com" = "" /\ extractPath "https://a.com/" <> "" /\
  areSimilarURLs strings.ToLowerASCII "https://a.com" "https://a.com/" = false /\
  areSimilarURLs strings.ToLowerASCII "https://a.com/" "https://a.com" = false.
Proof.
  assert (H0 : strings.ToLowerASCII "" = "") by reflexivity.
  assert (H0' : forall s, s <> "" -> strings.ToLowerASCII s <> "").
  { intros [|c s] Hs; [by destruct Hs|]. simpl. discriminate. }
  assert (H1 : extractPath "https://a.com" = "") by reflexivity.
  assert (H2 : extractPath "https://a.com/" <> "") by (vm_compute; discriminate).
  repeat (split; [assumption|]).
  exact (areSimilarURLs_no_path strings.ToLowerASCII _ _ H0 H0' H1 H2).
Defined.

Lemma areSimilarURLs_domain ToLower (u v : string) :
  areSimilarURLs ToLower u v = true ->
  extractDomain ToLower u = extractDomain ToLower v /\
  extractDomain ToLower u <> "".
Proof.
  unfold areSimilarURLs.
  destruct (decide (extractDomain ToLower u = "")) as [He1|He1].
  { by rewrite (bool_decide_true _ He1). }
  rewrite (bool_decide_false _ He1). simpl.
  destruct (bool_decide (extractDomain ToLower v = "")); [done|].
  destruct (decide (extractDomain ToLower u = extractDomain ToLower v)) as [Hd|Hd].
  - done.
  - by rewrite (bool_decide_false _ Hd).
Qed.

(** X11. A mark never crosses sites: when [findDuplicates] marks a tab
    that carried no mark, the tab it points to comes strictly earlier
    and has the same normalised domain. *)
Theorem findDuplicates_same_domain (ToLower : string -> string) (tabs : list Tab)
    (i j : nat) (t t' : Tab) :
  tabs !! i = Some t -> DuplicateOf t = None ->
  findDuplicates ToLower tabs !! i = Some t' -> DuplicateOf t' = Some j ->
  (j < i)%nat /\
  exists t_j, tabs !! j = Some t_j /\
    extractDomain ToLower (URL t) = extractDomain ToLower (URL t_j).
Proof.
  intros Hi Hfresh Hout Hmark.
  rewrite (findDuplicates_lookup ToLower tabs i t Hi) in Hout.
  injection Hout as <-. unfold annotated in Hmark.
  destruct (scanEarlier ToLower (URL t) (take i tabs) 0) as [idx|] eqn:Hscan;
    [|congruence].
  simpl in Hmark. injection Hmark as ->.
  apply scanEarlier_Some in Hscan as (k & t_k & -> & Hk & Hm & _).
  apply lookup_take_Some in Hk as [Hk Hlt]. simpl.
  split; [lia|]. exists t_k. split; [done|].
  destruct Hm as [Heq|Hsim]; [by rewrite Heq|].
  by apply areSimilarURLs_domain in Hsim as [? _].
Qed.

Lemma findDuplicates_same_domain_witness :
  exampleTabs !! 3%nat = Some (rawTab 2 2 "B" "https://site.com/page?id=2") /\
  findDuplicates strings.ToLowerASCII exampleTabs !! 3%nat
  = Some (set_Selected (set_DuplicateOf
            (rawTab 2 2 "B" "https://site.com/page?id=2") 1) true) /\
  (1 < 3)%nat /\
  exists t_j, exampleTabs !! 1%nat = Some t_j /\
    extractDomain strings.ToLowerASCII "https://site.com/page?id=2"
    = extractDomain strings.ToLowerASCII (URL t_j).
Proof.
  assert (H1 : exampleTabs !! 3%nat
               = Some (rawTab 2 2 "B" "https://site.com/page?id=2")) by reflexivity.
  assert (H2 : findDuplicates strings.ToLowerASCII exampleTabs !! 3%nat
               = Some (set_Selected (set_DuplicateOf
                         (rawTab 2 2 "B" "https://site.com/page?id=2") 1) true))
    by (vm_compute; reflexivity).
  split; [exact H1|]. split; [exact H2|].
  exact (findDuplicates_same_domain strings.ToLowerASCII exampleTabs 3 1 _ _
           H1 eq_refl H2 eq_refl).
Defined.

(** ** More on the staleness classifier *)

Lemma visitTimesOf_snoc h rows row :
  visitTimesOf h (rows ++ [row]) =
  match row with
  | None => visitTimesOf h rows
  | Some (url, visitTime) => <[url := visitTimeOf h visitTime]> (visitTimesOf h rows)
  end.
Proof. unfold visitTimesOf. rewrite foldl_app. simpl. by destruct row as [[? ?]|]. Qed.

Lemma lastRowFor_snoc rows row u k f :
  lastRowFor (rows ++ [row]) u k f <->
  (k = length rows /\ row = Some (u, f)) \/
  (lastRowFor rows u k f /\ forall f', row <> Some (u, f')).
Proof.
  unfold lastRowFor. split.
  - intros [Hk Hlast].
    destruct (decide (k < length rows)%nat) as [Hlt|Hge].
    + right. rewrite lookup_app_l in Hk by done. split; [split; [done|]|].
      * intros k' f' Hk' Hrow. apply (Hlast k' f' Hk').
        rewrite lookup_app_l; [done|]. by eapply lookup_lt_Some.
      * intros f' ->. apply (Hlast (length rows) f' Hlt).
        rewrite lookup_app_r by lia. by rewrite Nat.sub_diag.
    + left. rewrite lookup_app_r in Hk by lia.
      destruct (k - length rows)%nat as [|n] eqn:Hn; simpl in Hk; [|by destruct n].
      split; [lia|congruence].
  - intros [[-> ->]|[[Hk Hlast] Hrow]].
    + split.
      * rewrite lookup_app_r by lia. by rewrite Nat.sub_diag.
      * intros k' f' Hk' Hrow. apply lookup_lt_Some in Hrow.
        rewrite length_app in Hrow. simpl in Hrow. lia.
    + split.
      * rewrite lookup_app_l; [done|]. by eapply lookup_lt_Some.
      * intros k' f' Hk' Hrow'.
        destruct (decide (k' < length rows)%nat) as [Hlt|Hge].
        -- rewrite lookup_app_l in Hrow' by done. by apply (Hlast k' f').
        -- rewrite lookup_app_r in Hrow' by lia.
           destruct (k' - length rows)%nat as [|n]; simpl in Hrow';
             [|by destruct n].
           injection Hrow' as Hr. by apply (Hrow f').
Qed.

(** X12. The history lookup holds, for each URL, the visit time of the
    last row that scanned successfully with that URL (rows whose scan
    fails are skipped, later rows override earlier ones), and nothing
    for a URL that no such row carries. *)
Theorem visitTimesOf_last_row (h : Host) (rows : list (result (string * float)))
    (u : string) :
  (forall t, visitTimesOf h rows !! u = Some t <->
     exists k f, lastRowFor rows u k f /\ t = visitTimeOf h f) /\
  (visitTimesOf h rows !! u = None <->
     forall k f, rows !! k <> Some (Some (u, f))).
Proof.
  induction rows as [|row rows [IHsome IHnone]] using rev_ind.
  - split.
    + intros t. unfold visitTimesOf. simpl. rewrite lookup_empty. split; [done|].
      intros (k & f & [Hk _] & _). by rewrite lookup_nil in Hk.
    + split; [|done]. intros _ k f. by rewrite lookup_nil.
  - rewrite visitTimesOf_snoc. split.
    + intros t. setoid_rewrite lastRowFor_snoc.
      destruct row as [[url f0]|].
      * destruct (decide (url = u)) as [->|Hne].
        -- rewrite lookup_insert_eq. split.
           ++ intros [= <-]. exists (length rows), f0. split; [by left|done].
           ++ intros (k & f & [[-> [= <-]]|[_ Hrow]] & ->); [done|].
              by destruct (Hrow f0).
        -- rewrite lookup_insert_ne by done. rewrite IHsome. split.
           ++ intros (k & f & Hlast & ->). exists k, f. split; [|done].
              right. split; [done|]. intros f' [= ? ?]. done.
           ++ intros (k & f & [[-> [= ? ?]]|[Hlast _]] & ->); [done|].
              by exists k, f.
      * rewrite IHsome. split.
        -- intros (k & f & Hlast & ->). exists k, f. split; [|done].
           right. by split.
        -- intros (k & f & [[-> ?]|[Hlast _]] & ->); [done|]. by exists k, f.
    + destruct row as [[url f0]|].
      * destruct (decide (url = u)) as [->|Hne].
        -- rewrite lookup_insert_eq. split; [done|]. intros Hnone. exfalso.
           apply (Hnone (length rows) f0).
           rewrite lookup_app_r by lia. by rewrite Nat.sub_diag.
        -- rewrite lookup_insert_ne by done. rewrite IHnone. split.
           ++ intros Hnone k f Hk.
              destruct (decide (k < length rows)%nat) as [Hlt|Hge].
              ** rewrite lookup_app_l in Hk by done. by apply (Hnone k f).
              ** rewrite lookup_app_r in Hk by lia.
                 destruct (k - length rows)%nat as [|n]; simpl in Hk;
                   [congruence|by destruct n].
           ++ intros Hnone k f Hk. apply (Hnone k f).
              rewrite lookup_app_l; [done|]. by eapply lookup_lt_Some.
      * rewrite IHnone. split.
        -- intros Hnone k f Hk.
           destruct (decide (k < length rows)%nat) as [Hlt|Hge].
           ++ rewrite lookup_app_l in Hk by done. by apply (Hnone k f).
           ++ rewrite lookup_app_r in Hk by lia.
              destruct (k - length rows)%nat as [|n]; simpl in Hk;
                [congruence|by destruct n].
        -- intros Hnone k f Hk. apply (Hnone k f).
           rewrite lookup_app_l; [done|]. by eapply lookup_lt_Some.
Qed.

Lemma enrichTab_length visitTimes ageThreshold (tabs : list Tab) (i : nat) :
  length (enrichTab visitTimes ageThreshold tabs i) = length tabs.
Proof.
  unfold enrichTab. destruct (tabs !! i); [|done].
  destruct (visitTimes !! _); by rewrite length_insert.
Qed.

Lemma enrichLoop_length visitTimes ageThreshold (idxs : list nat) :
  forall tabs : list Tab,
    length (foldl (enrichTab visitTimes ageThreshold) tabs idxs) = length tabs.
Proof.
  induction idxs as [|i idxs IH]; intros tabs; [done|].
  simpl. by rewrite IH, enrichTab_length.
Qed.

Lemma enrichWithVisitData_unreadable h tabs ageDays w :
  historyRows h = None ->
  exists warning,
    enrichWithVisitData h tabs ageDays w
    = (tabs, {| issued := issued w; logged := logged w ++ [warning] |}).
Proof.
  intros Hrows. unfold historyRows in Hrows. unfold enrichWithVisitData.
  destruct (os_UserHomeDir h) as [homeDir|]; simpl in *;
    [|by exists WarnHomeDir].
  destruct (sql_Open h _ _) as [db|]; simpl in *;
    [|by exists WarnOpenHistory].
  rewrite Hrows. by exists WarnQueryHistory.
Qed.

Lemma enriched_fields visitTimes ageThreshold (t : Tab) :
  let t' := enriched visitTimes ageThreshold t in
  WindowIndex t' = WindowIndex t /\ TabIndex t' = TabIndex t /\
  Title t' = Title t /\ URL t' = URL t /\
  DuplicateOf t' = DuplicateOf t /\ Selected t' = Selected t.
Proof. unfold enriched. by destruct (visitTimes !! URL t). Qed.

(** X13. Whatever the state of the history store, the staleness
    classifier runs no script and returns a list of the same length in
    which every tab keeps its window, index, title, URL, duplicate mark
    and selection; the last visit of a tab is overwritten only with the
    visit the store holds for its URL. *)
Theorem enrichWithVisitData_preserves (h : Host) (tabs : list Tab) (ageDays : Z)
    (w : World) :
  issued (enrichWithVisitData h tabs ageDays w).2 = issued w /\
  length (enrichWithVisitData h tabs ageDays w).1 = length tabs /\
  forall i t, tabs !! i = Some t ->
    exists t',
      (enrichWithVisitData h tabs ageDays w).1 !! i = Some t' /\
      WindowIndex t' = WindowIndex t /\ TabIndex t' = TabIndex t /\
      Title t' = Title t /\ URL t' = URL t /\
      DuplicateOf t' = DuplicateOf t /\ Selected t' = Selected t /\
      (LastVisit t' = LastVisit t \/
       exists rows, historyRows h = Some rows /\
         visitTimesOf h rows !! URL t = Some (LastVisit t')).
Proof.
  destruct (historyRows h) as [rows|] eqn:Hrows.
  - rewrite (enrichWithVisitData_readable h rows tabs ageDays w Hrows). simpl.
    split; [done|]. split; [apply enrichLoop_length|].
    intros i t Hi. eexists. split; [by apply enrichLoop_lookup|].
    destruct (enriched_fields (visitTimesOf h rows)
                (time_AddDate h (time_Now h) 0 0 (- ageDays)) t)
      as (? & ? & ? & ? & ? & ?).
    repeat (split; [done|]).
    unfold enriched.
    destruct (visitTimesOf h rows !! URL t) as [lastVisit|] eqn:Hlook.
    + right. by exists rows.
    + by left.
  - destruct (enrichWithVisitData_unreadable h tabs ageDays w Hrows) as [warning ->].
    simpl. split; [done|]. split; [done|].
    intros i t Hi. exists t. split; [done|]. repeat (split; [done|]). by left.
Qed.

Lemma enrichWithVisitData_preserves_witness :
  issued (enrichWithVisitData exampleHost exampleTabs 30 World0).2 = issued World0 /\
  length (enrichWithVisitData exampleHost exampleTabs 30 World0).1
  = length exampleTabs /\
  forall i t, exampleTabs !! i = Some t ->
    exists t',
      (enrichWithVisitData exampleHost exampleTabs 30 World0).1 !! i = Some t' /\
      WindowIndex t' = WindowIndex t /\ TabIndex t' = TabIndex t /\
      Title t' = Title t /\ URL t' = URL t /\
      DuplicateOf t' = DuplicateOf t /\ Selected t' = Selected t /\
      (LastVisit t' = LastVisit t \/
       exists rows, historyRows exampleHost = Some rows /\
         visitTimesOf exampleHost rows !! URL t = Some (LastVisit t')).
Proof. exact (enrichWithVisitData_preserves exampleHost exampleTabs 30 World0). Defined.

(** ** The pipeline from the snapshot to the list *)

Lemma enrichWithVisitData_view (h : Host) (tabs : list Tab) (ageDays : Z) (w : World) :
  issued (enrichWithVisitData h tabs ageDays w).2 = issued w /\
  URL <$> (enrichWithVisitData h tabs ageDays w).1 = URL <$> tabs /\
  position <$> (enrichWithVisitData h tabs ageDays w).1 = position <$> tabs /\
  DuplicateOf <$> (enrichWithVisitData h tabs ageDays w).1 = DuplicateOf <$> tabs /\
  Selected <$> (enrichWithVisitData h tabs ageDays w).1 = Selected <$> tabs.
Proof.
  destruct (historyRows h) as [rows|] eqn:Hrows.
  - rewrite (enrichWithVisitData_readable h rows tabs ageDays w Hrows). simpl.
    split; [done|].
    assert (Hfield : forall {B} (f : Tab -> B),
              (forall vt th t, f (enriched vt th t) = f t) ->
              f <$> foldl (enrichTab (visitTimesOf h rows)
                             (time_AddDate h (time_Now h) 0 0 (- ageDays)))
                          tabs (seq 0 (length tabs))
              = f <$> tabs).
    { intros B f Hf. apply list_eq. intros i. rewrite !list_lookup_fmap.
      destruct (tabs !! i) as [t|] eqn:Hi.
      - rewrite (enrichLoop_lookup _ _ tabs i t Hi). simpl. by rewrite Hf.
      - apply lookup_ge_None in Hi.
        rewrite (proj2 (lookup_ge_None _ _)); [done|].
        by rewrite enrichLoop_length. }
    repeat split; apply Hfield; intros vt th t; unfold enriched;
      by destruct (vt !! URL t).
  - by destruct (enrichWithVisitData_unreadable h tabs ageDays w Hrows)
      as [warning ->].
Qed.

Lemma getSafariTabs_fresh (h : Host) (ageDays : Z) (w : World) (allTabs : list Tab) :
  osascript h (issued w) Enumerate = Some allTabs ->
  let w1 := {| issued := issued w ++ [Enumerate]; logged := logged w |} in
  getSafariTabs h ageDays w
  = (Some ((enrichWithVisitData h (filterPinnedTabs allTabs).1 ageDays w1).1,
           (filterPinnedTabs allTabs).2),
     (enrichWithVisitData h (filterPinnedTabs allTabs).1 ageDays w1).2).
Proof.
  intros Hsnap w1.
  unfold getSafariTabs, getSafariTabsRaw, mbind, M_bind, bind, run.
  rewrite Hsnap. fold w1.
  destruct (filterPinnedTabs allTabs) as [tabs emptyWindows]. simpl.
  by destruct (enrichWithVisitData h tabs ageDays w1).
Qed.

(** X14. [getSafariTabs] runs the enumeration script and no other.  If
    it fails, the error is returned and the history is not consulted.
    Otherwise the tabs returned are those the pinned-tab filter keeps, in
    order and at their positions, none of them a pinned tab, together
    with the windows the filter reports. *)
Theorem getSafariTabs_pipeline (h : Host) (ageDays : Z) (w : World) :
  issued (getSafariTabs h ageDays w).2 = issued w ++ [Enumerate] /\
  (osascript h (issued w) Enumerate = None ->
   getSafariTabs h ageDays w
   = (None, {| issued := issued w ++ [Enumerate]; logged := logged w |})) /\
  (forall allTabs, osascript h (issued w) Enumerate = Some allTabs ->
   exists tabs,
     (getSafariTabs h ageDays w).1 = Some (tabs, (filterPinnedTabs allTabs).2) /\
     URL <$> tabs = URL <$> (filterPinnedTabs allTabs).1 /\
     position <$> tabs = position <$> (filterPinnedTabs allTabs).1 /\
     forall t, t ∈ tabs ->
       ~ (TabIndex t <= 4 /\ isPinned allTabs (URL t) = true)).
Proof.
  assert (Hfail : osascript h (issued w) Enumerate = None ->
            getSafariTabs h ageDays w
            = (None, {| issued := issued w ++ [Enumerate]; logged := logged w |})).
  { intros Hsnap.
    unfold getSafariTabs, getSafariTabsRaw, mbind, M_bind, bind, run.
    by rewrite Hsnap. }
  destruct (osascript h (issued w) Enumerate) as [allTabs|] eqn:Hsnap.
  - pose proof (getSafariTabs_fresh h ageDays w allTabs Hsnap) as Hrun.
    simpl in Hrun.
    set (w1 := {| issued := issued w ++ [Enumerate]; logged := logged w |}) in *.
    destruct (enrichWithVisitData_view h (filterPinnedTabs allTabs).1 ageDays w1)
      as (Hissued & Hurl & Hpos & _).
    rewrite Hrun. cbn [fst snd]. split; [done|]. split; [done|].
    intros allTabs' Heq. assert (allTabs' = allTabs) as -> by congruence.
    set (filtered := (filterPinnedTabs allTabs).1) in *.
    set (out := (enrichWithVisitData h filtered ageDays w1).1) in *.
    exists out. split; [done|]. split; [done|]. split; [done|].
    intros t Hin.
    apply list_elem_of_lookup in Hin as [i Hi].
    assert (Hu : (URL <$> out) !! i = Some (URL t))
      by (by rewrite list_lookup_fmap, Hi).
    assert (Hp : (position <$> out) !! i = Some (position t))
      by (by rewrite list_lookup_fmap, Hi).
    rewrite Hurl in Hu. rewrite Hpos in Hp.
    rewrite list_lookup_fmap in Hu. rewrite list_lookup_fmap in Hp.
    destruct (filtered !! i) as [t0|] eqn:Ht0; [|done].
    simpl in Hu, Hp. injection Hu as Hu. injection Hp as _ Hp.
    assert (t0 ∈ filtered) as Hin0
      by (apply list_elem_of_lookup; by exists i).
    apply filterPinnedTabs_result_elem in Hin0 as [_ Hkeep].
    by rewrite <- Hu, <- Hp.
  - rewrite (Hfail eq_refl). simpl. split; [done|]. split; [done|].
    by intros ? [=].
Qed.

Lemma getSafariTabs_pipeline_witness :
  issued (getSafariTabs exampleHost 30 World0).2 = issued World0 ++ [Enumerate] /\
  (osascript exampleHost (issued World0) Enumerate = None ->
   getSafariTabs exampleHost 30 World0
   = (None, {| issued := issued World0 ++ [Enumerate]; logged := logged World0 |})) /\
  (forall allTabs, osascript exampleHost (issued World0) Enumerate = Some allTabs ->
   exists tabs,
     (getSafariTabs exampleHost 30 World0).1
     = Some (tabs, (filterPinnedTabs allTabs).2) /\
     URL <$> tabs = URL <$> (filterPinnedTabs allTabs).1 /\
     position <$> tabs = position <$> (filterPinnedTabs allTabs).1 /\
     forall t, t ∈ tabs ->
       ~ (TabIndex t <= 4 /\ isPinned allTabs (URL t) = true)).
Proof. exact (getSafariTabs_pipeline exampleHost 30 World0). Defined.

Lemma refreshTabsCmd_run ToLower (h : Host) (ageDays : Z) (w : World) :
  refreshTabsCmd ToLower h ageDays w =
  (match (getSafariTabs h ageDays w).1 with
   | None => ({| refreshed_tabs := []; refreshed_emptyWindows := [] |}, true)
   | Some (tabs, emptyWindows) =>
       ({| refreshed_tabs := findDuplicates ToLower tabs;
           refreshed_emptyWindows := emptyWindows |}, false)
   end,
   (getSafariTabs h ageDays w).2).
Proof.
  unfold refreshTabsCmd, mbind, M_bind, bind.
  destruct (getSafariTabs h ageDays w) as [[[tabs emptyWindows]|] w'] eqn:Hget;
    by rewrite ?Hget.
Qed.

Lemma getSafariTabs_failed (h : Host) (ageDays : Z) (w : World) :
  osascript h (issued w) Enumerate = None ->
  getSafariTabs h ageDays w
  = (None, {| issued := issued w ++ [Enumerate]; logged := logged w |}).
Proof.
  intros Hsnap.
  unfold getSafariTabs, getSafariTabsRaw, mbind, M_bind, bind, run.
  by rewrite Hsnap.
Qed.

(** X15. A refresh that cannot enumerate the tabs yields an empty list
    and no windows, and logs the error.  A refresh from a snapshot whose
    tabs carry no mark and no selection, as [getSafariTabsRaw] builds
    them, yields a list in which every mark points to a strictly earlier
    tab of the same list with an equal or similar URL, and in which
    exactly the marked tabs are selected. *)
Theorem refreshTabsCmd_list (ToLower : string -> string) (h : Host) (ageDays : Z)
    (w : World) :
  (osascript h (issued w) Enumerate = None ->
   (refreshTabsCmd ToLower h ageDays w).1
   = ({| refreshed_tabs := []; refreshed_emptyWindows := [] |}, true)) /\
  (forall allTabs,
     osascript h (issued w) Enumerate = Some allTabs ->
     Forall (fun t => DuplicateOf t = None /\ Selected t = false) allTabs ->
     let msg := (refreshTabsCmd ToLower h ageDays w).1.1 in
     (refreshTabsCmd ToLower h ageDays w).1.2 = false /\
     refreshed_emptyWindows msg = (filterPinnedTabs allTabs).2 /\
     URL <$> refreshed_tabs msg = URL <$> (filterPinnedTabs allTabs).1 /\
     forall i t, refreshed_tabs msg !! i = Some t ->
       (Selected t = true <-> is_Some (DuplicateOf t)) /\
       forall j, DuplicateOf t = Some j ->
         (j < i)%nat /\
         exists t_j, refreshed_tabs msg !! j = Some t_j /\
                     matches ToLower (URL t) (URL t_j)).
Proof.
  rewrite refreshTabsCmd_run. split.
  - intros Hsnap. by rewrite (getSafariTabs_failed h ageDays w Hsnap).
  - intros allTabs Hsnap Hraw.
    pose proof (getSafariTabs_fresh h ageDays w allTabs Hsnap) as Hrun.
    cbv zeta in Hrun. rewrite Hrun. cbn [fst snd refreshed_tabs refreshed_emptyWindows].
    set (w1 := {| issued := issued w ++ [Enumerate]; logged := logged w |}) in *.
    set (filtered := (filterPinnedTabs allTabs).1) in *.
    destruct (enrichWithVisitData_view h filtered ageDays w1)
      as (_ & Hurl & _ & Hdup & Hsel).
    set (tabs := (enrichWithVisitData h filtered ageDays w1).1) in *.
    split; [done|]. split; [done|].
    split; [by rewrite findDuplicates_urls|].
    intros i t Hi.
    (* the tab at [i] before the marks *)
    assert (Hlen : (i < length tabs)%nat).
    { rewrite <- (findDuplicates_length ToLower). by eapply lookup_lt_Some. }
    destruct (lookup_lt_is_Some_2 tabs i Hlen) as [t0 Ht0].
    rewrite (findDuplicates_lookup ToLower tabs i t0 Ht0) in Hi.
    injection Hi as <-.
    assert (Hraw0 : DuplicateOf t0 = None /\ Selected t0 = false).
    { assert (Hd : (DuplicateOf <$> tabs) !! i = Some (DuplicateOf t0))
        by (by rewrite list_lookup_fmap, Ht0).
      assert (Hs : (Selected <$> tabs) !! i = Some (Selected t0))
        by (by rewrite list_lookup_fmap, Ht0).
      rewrite Hdup in Hd. rewrite Hsel in Hs.
      rewrite list_lookup_fmap in Hd. rewrite list_lookup_fmap in Hs.
      destruct (filtered !! i) as [tf|] eqn:Htf; [|done].
      simpl in Hd, Hs. injection Hd as Hd. injection Hs as Hs.
      assert (tf ∈ allTabs) as Hin.
      { assert (tf ∈ filtered) as Hinf by (apply list_elem_of_lookup; by exists i).
        by apply filterPinnedTabs_result_elem in Hinf as [? _]. }
      rewrite Forall_forall in Hraw. destruct (Hraw tf Hin) as [? ?].
      split; congruence. }
    destruct Hraw0 as [Hd0 Hs0].
    unfold annotated.
    destruct (scanEarlier ToLower (URL t0) (take i tabs) 0) as [idx|] eqn:Hscan.
    + simpl. split; [split; [by eexists|done]|].
      intros j [= <-].
      apply scanEarlier_Some in Hscan as (k & t_k & -> & Hk & Hm & _).
      apply lookup_take_Some in Hk as [Hk Hlt]. simpl.
      split; [lia|].
      exists (annotated ToLower tabs k t_k).
      split; [by apply findDuplicates_lookup|].
      replace (URL (annotated ToLower tabs k t_k)) with (URL t_k); [done|].
      symmetry. apply annotated_fields.
    + rewrite Hd0, Hs0. split; [split; [done|by intros [? ?]]|]. by intros j.
Qed.

Lemma refreshTabsCmd_list_witness :
  (osascript exampleHost (issued World0) Enumerate = None ->
   (refreshTabsCmd strings.ToLowerASCII exampleHost 30 World0).1
   = ({| refreshed_tabs := []; refreshed_emptyWindows := [] |}, true)) /\
  (forall allTabs,
     osascript exampleHost (issued World0) Enumerate = Some allTabs ->
     Forall (fun t => DuplicateOf t = None /\ Selected t = false) allTabs ->
     let msg := (refreshTabsCmd strings.ToLowerASCII exampleHost 30 World0).1.1 in
     (refreshTabsCmd strings.ToLowerASCII exampleHost 30 World0).1.2 = false /\
     refreshed_emptyWindows msg = (filterPinnedTabs allTabs).2 /\
     URL <$> refreshed_tabs msg = URL <$> (filterPinnedTabs allTabs).1 /\
     forall i t, refreshed_tabs msg !! i = Some t ->
       (Selected t = true <-> is_Some (DuplicateOf t)) /\
       forall j, DuplicateOf t = Some j ->
         (j < i)%nat /\
         exists t_j, refreshed_tabs msg !! j = Some t_j /\
                     matches strings.ToLowerASCII (URL t) (URL t_j)).
Proof. exact (refreshTabsCmd_list strings.ToLowerASCII exampleHost 30 World0). Defined.

(** The list a refresh yields on the example host. *)
Example refreshTabsCmd_example :
  let msg := (refreshTabsCmd strings.ToLowerASCII exampleHost 30 World0).1.1 in
  DuplicateOf <$> refreshed_tabs msg = [None; None; Some 0%nat; Some 1%nat] /\
  Selected <$> refreshed_tabs msg = [false; false; true; true] /\
  IsOld <$> refreshed_tabs msg = [false; false; false; true].
Proof. vm_compute. repeat split. Qed.

(** ** More on the closure reconciler *)

Lemma sort_Slice_reverseIntLess_sorted (x : list Z) :
  StronglySorted (fun a b => b <= a) (sort_Slice reverseIntLess x).
Proof.
  unfold sort_Slice.
  pose proof (StronglySorted_merge_sort (inOrder reverseIntLess) x) as Hs.
  induction Hs as [|a l Hl IH Ha]; constructor; [done|].
  eapply Forall_impl; [exact Ha|]. intros b. apply inOrder_reverseIntLess.
Qed.

(** X16. After the close-tab scripts, one close-window script is issued
    for each entry of the window list, in descending window order; the
    order depends on the list only as a multiset. *)
Theorem closeTabsAsync_windows_descending (h : Host) (tabsToClose : list Tab)
    (emptyWindows : list Z) (w : World) (currentTabs : list Tab) :
  osascript h (issued w) Enumerate = Some currentTabs ->
  exists plan windows,
    issued (closeTabsAsync h tabsToClose emptyWindows w).2
    = issued w ++ [Enumerate] ++ (closeTabCmd <$> plan) ++ (CloseWindow <$> windows) /\
    windows ≡ₚ emptyWindows /\
    StronglySorted (fun a b => b <= a) windows /\
    forall windows',
      windows' ≡ₚ emptyWindows -> StronglySorted (fun a b => b <= a) windows' ->
      windows' = windows.
Proof.
  intros Hsnap.
  destruct (closeTabsAsync_run h tabsToClose emptyWindows w currentTabs Hsnap)
    as [Hissued _].
  eexists _, _. split; [exact Hissued|].
  split; [apply sort_Slice_Permutation|].
  split; [apply sort_Slice_reverseIntLess_sorted|].
  intros windows' Hperm Hsorted.
  apply (StronglySorted_unique_strong (fun a b => b <= a)).
  - intros a b _ _. lia.
  - done.
  - apply sort_Slice_reverseIntLess_sorted.
  - by rewrite Hperm, sort_Slice_Permutation.
Qed.

Lemma closeTabsAsync_windows_descending_witness :
  osascript orderHost (issued World0) Enumerate = Some orderSnapshot /\
  exists plan windows,
    issued (closeTabsAsync orderHost orderSelection [2; 7; 3] World0).2
    = issued World0 ++ [Enumerate] ++ (closeTabCmd <$> plan)
        ++ (CloseWindow <$> windows) /\
    windows ≡ₚ [2; 7; 3] /\
    StronglySorted (fun a b => b <= a) windows /\
    forall windows',
      windows' ≡ₚ [2; 7; 3] -> StronglySorted (fun a b => b <= a) windows' ->
      windows' = windows.
Proof.
  split; [reflexivity|].
  apply (closeTabsAsync_windows_descending orderHost orderSelection [2; 7; 3]
           World0 orderSnapshot).
  reflexivity.
Defined.

Lemma matchTabs_spec (tabsToClose currentTabs : list Tab) :
  NoDup (url <$> matchTabs (urlSet tabsToClose) currentTabs) /\
  forall wt, wt ∈ matchTabs (urlSet tabsToClose) currentTabs <->
    exists i t, firstWithURL currentTabs i t /\ wt = matchedAt t /\
                exists t0, t0 ∈ tabsToClose /\ URL t0 = URL t.
Proof.
  unfold matchTabs.
  destruct (matchLoop_spec currentTabs [] (urlSet tabsToClose))
    as (new & Hrun & Hnodup & Hnew).
  rewrite Hrun. simpl. split; [done|].
  intros wt. rewrite Hnew.
  split; intros (i & t & Hfirst & -> & Hb); exists i, t;
    (split; [done|]); (split; [done|]); by apply urlSet_spec.
Qed.

Lemma NoDup_subseteq_length {A} (l k : list A) :
  NoDup l -> (forall x, x ∈ l -> x ∈ k) -> (length l <= length k)%nat.
Proof. intros Hnd Hsub. apply submseteq_length. by apply NoDup_submseteq. Qed.

Lemma matchTabs_length (tabsToClose currentTabs : list Tab) :
  (length (matchTabs (urlSet tabsToClose) currentTabs) <= length tabsToClose)%nat /\
  (length (matchTabs (urlSet tabsToClose) currentTabs) <= length currentTabs)%nat.
Proof.
  destruct (matchTabs_spec tabsToClose currentTabs) as [Hnodup Hspec].
  rewrite <- (length_fmap url (matchTabs _ _)).
  rewrite <- (length_fmap URL tabsToClose), <- (length_fmap URL currentTabs).
  split; apply NoDup_subseteq_length; try done; intros u Hu;
    apply list_elem_of_fmap in Hu as (wt & -> & Hwt);
    apply Hspec in Hwt as (i & t & [Hi _] & -> & t0 & Hin0 & Hu0);
    apply list_elem_of_fmap; simpl.
  - by exists t0.
  - exists t. split; [done|]. apply list_elem_of_lookup. by exists i.
Qed.

(** X17. The count a close operation reports never exceeds the number
    of selected tabs nor the number of live tabs.  With an empty
    selection no close-tab script is issued and the count is 0, but the
    windows of the list are closed all the same. *)
Theorem closeTabsAsync_count_bounds (h : Host) (tabsToClose : list Tab)
    (emptyWindows : list Z) (w : World) (currentTabs : list Tab) :
  osascript h (issued w) Enumerate = Some currentTabs ->
  0 <= count (closeTabsAsync h tabsToClose emptyWindows w).1
    <= Z.of_nat (length tabsToClose) /\
  count (closeTabsAsync h tabsToClose emptyWindows w).1
    <= Z.of_nat (length currentTabs) /\
  (tabsToClose = [] ->
   count (closeTabsAsync h tabsToClose emptyWindows w).1 = 0 /\
   issued (closeTabsAsync h tabsToClose emptyWindows w).2
   = issued w ++ [Enumerate]
       ++ (CloseWindow <$> sort_Slice reverseIntLess emptyWindows)).
Proof.
  intros Hsnap.
  destruct (closeTabsAsync_run h tabsToClose emptyWindows w currentTabs Hsnap)
    as [Hissued Hcount].
  destruct (matchTabs_length tabsToClose currentTabs) as [Hsel Hlive].
  rewrite Hcount, Hissued. cbn [count].
  rewrite (Permutation_length (sort_Slice_Permutation closeLess _)).
  split; [lia|]. split; [lia|].
  intros ->.
  assert (Hnone : matchTabs (urlSet []) currentTabs = []).
  { destruct (matchTabs (urlSet []) currentTabs); [done|]. simpl in Hsel. lia. }
  rewrite Hnone. done.
Qed.

Lemma closeTabsAsync_count_bounds_witness :
  osascript orderHost (issued World0) Enumerate = Some orderSnapshot /\
  0 <= count (closeTabsAsync orderHost orderSelection [2; 7] World0).1
    <= Z.of_nat (length orderSelection) /\
  count (closeTabsAsync orderHost orderSelection [2; 7] World0).1
    <= Z.of_nat (length orderSnapshot) /\
  (orderSelection = [] ->
   count (closeTabsAsync orderHost orderSelection [2; 7] World0).1 = 0 /\
   issued (closeTabsAsync orderHost orderSelection [2; 7] World0).2
   = issued World0 ++ [Enumerate]
       ++ (CloseWindow <$> sort_Slice reverseIntLess [2; 7])).
Proof.
  split; [reflexivity|].
  apply (closeTabsAsync_count_bounds orderHost orderSelection [2; 7] World0
           orderSnapshot).
  reflexivity.
Defined.

(** X18. A close operation only closes what was selected: every
    close-tab script it issues addresses the position of a tab of the
    fresh snapshot whose URL is the URL of a selected tab, and on a
    snapshot with one tab per position no position is addressed twice. *)
Theorem closeTabsAsync_closes_selected_only (h : Host) (tabsToClose : list Tab)
    (emptyWindows : list Z) (w : World) (currentTabs : list Tab) :
  osascript h (issued w) Enumerate = Some currentTabs ->
  exists cmds windows,
    issued (closeTabsAsync h tabsToClose emptyWindows w).2
    = issued w ++ [Enumerate] ++ cmds ++ (CloseWindow <$> windows) /\
    (forall c, c ∈ cmds ->
       exists t, t ∈ currentTabs /\ c = CloseTab (TabIndex t) (WindowIndex t) /\
                 exists t0, t0 ∈ tabsToClose /\ URL t0 = URL t) /\
    (WellFormed currentTabs -> NoDup cmds).
Proof.
  intros Hsnap.
  destruct (closeTabsAsync_run h tabsToClose emptyWindows w currentTabs Hsnap)
    as [Hissued _].
  destruct (matchTabs_spec tabsToClose currentTabs) as [Hnodup Hspec].
  eexists _, _. split; [exact Hissued|].
  assert (Hcmd : forall c,
            c ∈ closeTabCmd <$> sort_Slice closeLess
                                  (matchTabs (urlSet tabsToClose) currentTabs) ->
            exists i t, firstWithURL currentTabs i t /\
                        c = CloseTab (TabIndex t) (WindowIndex t) /\
                        exists t0, t0 ∈ tabsToClose /\ URL t0 = URL t).
  { intros c Hc. apply list_elem_of_fmap in Hc as (wt & -> & Hwt).
    rewrite sort_Slice_Permutation in Hwt.
    apply Hspec in Hwt as (i & t & Hfirst & -> & Hsel). by exists i, t. }
  split.
  - intros c Hc. destruct (Hcmd c Hc) as (i & t & [Hi _] & -> & Hsel).
    exists t. split; [|done]. apply list_elem_of_lookup. by exists i.
  - intros Hwf. rewrite sort_Slice_Permutation.
    apply NoDup_fmap_2_strong; [|by apply NoDup_fmap_1 in Hnodup].
    intros a b Ha Hb Heq.
    apply Hspec in Ha as (i & ta & [Hia Hfa] & -> & _).
    apply Hspec in Hb as (j & tb & [Hjb Hfb] & -> & _).
    unfold closeTabCmd in Heq. simpl in Heq. injection Heq as Ht Hw'.
    assert (i = j) as ->.
    { apply (NoDup_lookup (position <$> currentTabs) i j
               (WindowIndex ta, TabIndex ta)); [done|..];
        rewrite list_lookup_fmap; [by rewrite Hia|].
      rewrite Hjb. simpl. unfold position. by rewrite Ht, Hw'. }
    congruence.
Qed.

Lemma closeTabsAsync_closes_selected_only_witness :
  osascript orderHost (issued World0) Enumerate = Some orderSnapshot /\
  exists cmds windows,
    issued (closeTabsAsync orderHost orderSelection [2; 7] World0).2
    = issued World0 ++ [Enumerate] ++ cmds ++ (CloseWindow <$> windows) /\
    (forall c, c ∈ cmds ->
       exists t, t ∈ orderSnapshot /\ c = CloseTab (TabIndex t) (WindowIndex t) /\
                 exists t0, t0 ∈ orderSelection /\ URL t0 = URL t) /\
    (WellFormed orderSnapshot -> NoDup cmds).
Proof.
  split; [reflexivity|].
  apply (closeTabsAsync_closes_selected_only orderHost orderSelection [2; 7]
           World0 orderSnapshot).
  reflexivity.
Defined.

Lemma failures_app h past cmds1 cmds2 :
  failures h past (cmds1 ++ cmds2)
  = failures h past cmds1 ++ failures h (past ++ cmds1) cmds2.
Proof.
  revert past. induction cmds1 as [|c cmds1 IH]; intros past; simpl.
  - by rewrite app_nil_r.
  - by rewrite IH, <- !app_assoc.
Qed.

Lemma closeOneTab_logged h wt w :
  logged (closeOneTab h wt w).2
  = logged w ++ failures h (issued w) [closeTabCmd wt].
Proof.
  unfold closeOneTab, mbind, M_bind, bind, run, closeTabCmd. simpl.
  destruct (osascript h (issued w) (CloseTab (tab wt) (window wt))); simpl;
    by rewrite ?app_nil_r.
Qed.

Lemma closeOneWindow_logged h x w :
  logged (closeOneWindow h x w).2
  = logged w ++ failures h (issued w) [CloseWindow x].
Proof.
  unfold closeOneWindow, mbind, M_bind, bind, run. simpl.
  destruct (osascript h (issued w) (CloseWindow x)); simpl;
    by rewrite ?app_nil_r.
Qed.

Lemma forEach_closeOneTab_logged h (l : list windowTab) :
  forall w, logged (forEach l (closeOneTab h) w).2
            = logged w ++ failures h (issued w) (closeTabCmd <$> l).
Proof.
  induction l as [|wt l IH]; intros w.
  - simpl. by rewrite app_nil_r.
  - rewrite forEach_cons, IH, closeOneTab_logged, closeOneTab_issued.
    change (closeTabCmd <$> wt :: l) with ([closeTabCmd wt] ++ (closeTabCmd <$> l)).
    by rewrite failures_app, <- app_assoc.
Qed.

Lemma forEach_closeOneWindow_logged h (l : list Z) :
  forall w, logged (forEach l (closeOneWindow h) w).2
            = logged w ++ failures h (issued w) (CloseWindow <$> l).
Proof.
  induction l as [|x l IH]; intros w.
  - simpl. by rewrite app_nil_r.
  - rewrite forEach_cons, IH, closeOneWindow_logged, closeOneWindow_issued.
    change (CloseWindow <$> x :: l) with ([CloseWindow x] ++ (CloseWindow <$> l)).
    by rewrite failures_app, <- app_assoc.
Qed.

Lemma failures_none h (cmds : list Command) :
  forall past,
    (forall past' c, c ∈ cmds -> osascript h past' c <> None) ->
    failures h past cmds = [].
Proof.
  induction cmds as [|c cmds IH]; intros past Hok; [done|]. simpl.
  rewrite IH by (intros past' c' Hc'; apply Hok; by right).
  destruct (osascript h past c) eqn:Hc; [done|].
  exfalso. by apply (Hok past c); [left|].
Qed.

(** X19. With a fresh snapshot, a close operation logs one warning for
    each closing script that fails, in the order the scripts are run,
    and nothing else; if no closing script fails the log is left as it
    was. *)
Theorem closeTabsAsync_log (h : Host) (tabsToClose : list Tab)
    (emptyWindows : list Z) (w : World) (currentTabs : list Tab) :
  osascript h (issued w) Enumerate = Some currentTabs ->
  let cmds :=
    (closeTabCmd <$> sort_Slice closeLess (matchTabs (urlSet tabsToClose) currentTabs))
    ++ (CloseWindow <$> sort_Slice reverseIntLess emptyWindows) in
  logged (closeTabsAsync h tabsToClose emptyWindows w).2
  = logged w ++ failures h (issued w ++ [Enumerate]) cmds /\
  ((forall past c, c ∈ cmds -> osascript h past c <> None) ->
   logged (closeTabsAsync h tabsToClose emptyWindows w).2 = logged w).
Proof.
  intros Hsnap cmds.
  set (plan := sort_Slice closeLess (matchTabs (urlSet tabsToClose) currentTabs)) in *.
  set (ws := sort_Slice reverseIntLess emptyWindows) in *.
  set (w1 := {| issued := issued w ++ [Enumerate]; logged := logged w |}).
  assert (Hrun : closeTabsAsync h tabsToClose emptyWindows w
                 = ({| count := Z.of_nat (length plan) |},
                    (forEach ws (closeOneWindow h)
                       (forEach plan (closeOneTab h) w1).2).2)).
  { unfold closeTabsAsync, getSafariTabsRaw, mbind, M_bind, bind, run.
    rewrite Hsnap. fold plan ws w1.
    destruct (forEach plan (closeOneTab h) w1) as [[] w2].
    simpl. by destruct (forEach ws (closeOneWindow h) w2) as [[] w3]. }
  assert (Hlog : logged (closeTabsAsync h tabsToClose emptyWindows w).2
                 = logged w ++ failures h (issued w ++ [Enumerate]) cmds).
  { rewrite Hrun. simpl.
    rewrite forEach_closeOneWindow_logged, forEach_closeOneTab_logged,
      forEach_closeOneTab_issued.
    unfold cmds. simpl. by rewrite failures_app, <- app_assoc. }
  split; [done|].
  intros Hok. rewrite Hlog, failures_none by done. by rewrite app_nil_r.
Qed.

Lemma closeTabsAsync_log_witness :
  osascript orderHost (issued World0) Enumerate = Some orderSnapshot /\
  let cmds :=
    (closeTabCmd <$> sort_Slice closeLess (matchTabs (urlSet orderSelection) orderSnapshot))
    ++ (CloseWindow <$> sort_Slice reverseIntLess [2; 7]) in
  logged (closeTabsAsync orderHost orderSelection [2; 7] World0).2
  = logged World0 ++ failures orderHost (issued World0 ++ [Enumerate]) cmds /\
  ((forall past c, c ∈ cmds -> osascript orderHost past c <> None) ->
   logged (closeTabsAsync orderHost orderSelection [2; 7] World0).2 = logged World0).
Proof.
  split; [reflexivity|].
  apply (closeTabsAsync_log orderHost orderSelection [2; 7] World0 orderSnapshot).
  reflexivity.
Defined.

(** ** The interactive model *)

Lemma setSelectedWhere_selectWhere (p : Tab -> bool) (v : bool) (ts : list Tab) :
  tui.setSelectedWhere p v ts = selectWhere p v ts.
Proof.
  unfold tui.setSelectedWhere, selectWhere.
  pose proof (foldl_seq_ind
    (fun k (m : list Tab) =>
       length m = length ts /\
       forall i t, ts !! i = Some t ->
         m !! i = Some (if decide (i < k)%nat
                        then (if p t then set_Selected t v else t) else t))
    (fun ts i =>
       match ts !! i with
       | Some t => if p t then <[i := set_Selected t v]> ts else ts
       | None => ts
       end)
    (length ts) 0%nat ts) as H.
  destruct H as [Hlen H].
  - split; [done|]. intros i t Hi. by rewrite decide_False by lia.
  - intros k m Hk [Hlen Hm].
    destruct (lookup_lt_is_Some_2 ts k) as [t_k Htk]; [lia|].
    rewrite (Hm k t_k Htk), decide_False by lia.
    destruct (p t_k) eqn:Hp.
    + split; [by rewrite length_insert|].
      intros i t Hi. destruct (decide (i = k)) as [->|Hne].
      * rewrite list_lookup_insert_eq by lia. simplify_eq.
        by rewrite decide_True, Hp by lia.
      * rewrite list_lookup_insert_ne by done. rewrite (Hm i t Hi).
        repeat case_decide; done || lia.
    + split; [done|]. intros i t Hi. rewrite (Hm i t Hi).
      destruct (decide (i = k)) as [->|Hne].
      * simplify_eq. rewrite decide_False, decide_True by lia. by rewrite Hp.
      * repeat case_decide; done || lia.
  - apply list_eq. intros i. rewrite list_lookup_fmap.
    destruct (ts !! i) as [t|] eqn:Hi.
    + rewrite (H i t Hi). simpl. rewrite decide_True; [done|].
      simpl. by eapply lookup_lt_Some.
    + apply lookup_ge_None. simpl in Hlen. rewrite Hlen.
      by apply lookup_ge_None.
Qed.

(** X20. The keys [a], [o] and [n], when no close operation is in
    flight: [a] selects every tab marked as a duplicate, [o] every stale
    tab, and neither deselects anything; [n] deselects the tabs marked
    as duplicates and leaves the selection of every other tab as it is.
    No command is returned and the list widget is given the new tabs. *)
Theorem Update_selection_keys {L C P} (ops : tui.ListOps L C) (m : tui.model L P) :
  unlocked m ->
  tui.Update ops m (tui.KeyMsg "a")
  = Some (tui.withTabs ops m (selectWhere tui.isDuplicate true (tui.tabs m)),
          tui.NoCmd) /\
  tui.Update ops m (tui.KeyMsg "o")
  = Some (tui.withTabs ops m (selectWhere IsOld true (tui.tabs m)), tui.NoCmd) /\
  tui.Update ops m (tui.KeyMsg "n")
  = Some (tui.withTabs ops m (selectWhere tui.isDuplicate false (tui.tabs m)),
          tui.NoCmd) /\
  (forall t, t ∈ tui.tabs m -> Selected t = true ->
     t ∈ selectWhere tui.isDuplicate true (tui.tabs m) /\
     t ∈ selectWhere IsOld true (tui.tabs m)) /\
  (forall t, t ∈ tui.tabs m -> DuplicateOf t = None ->
     t ∈ selectWhere tui.isDuplicate false (tui.tabs m)).
Proof.
  intros Hunlocked. unfold unlocked in Hunlocked.
  unfold tui.Update. rewrite Hunlocked.
  change (tui.keyMatches "a" ["q"; "ctrl+c"]) with false.
  change (tui.keyMatches "o" ["q"; "ctrl+c"]) with false.
  change (tui.keyMatches "n" ["q"; "ctrl+c"]) with false.
  cbn -[tui.setSelectedWhere tui.withTabs selectWhere].
  rewrite !setSelectedWhere_selectWhere.
  split; [done|]. split; [done|]. split; [done|]. split.
  - intros t Hin Hsel. unfold selectWhere.
    split; apply list_elem_of_fmap; exists t; (split; [|done]);
      destruct t as [? ? ? ? dup sel ? old]; simpl in *; subst sel;
      unfold tui.isDuplicate; simpl; by destruct dup, old.
  - intros t Hin Hdup. unfold selectWhere.
    apply list_elem_of_fmap. exists t. split; [|done].
    unfold tui.isDuplicate. by rewrite Hdup.
Qed.

Lemma Update_selection_keys_witness :
  unlocked exampleModel /\
  tui.Update simpleList exampleModel (tui.KeyMsg "a")
  = Some (tui.withTabs simpleList exampleModel
            (selectWhere tui.isDuplicate true (tui.tabs exampleModel)),
          tui.NoCmd) /\
  tui.Update simpleList exampleModel (tui.KeyMsg "o")
  = Some (tui.withTabs simpleList exampleModel
            (selectWhere IsOld true (tui.tabs exampleModel)), tui.NoCmd) /\
  tui.Update simpleList exampleModel (tui.KeyMsg "n")
  = Some (tui.withTabs simpleList exampleModel
            (selectWhere tui.isDuplicate false (tui.tabs exampleModel)),
          tui.NoCmd) /\
  (forall t, t ∈ tui.tabs exampleModel -> Selected t = true ->
     t ∈ selectWhere tui.isDuplicate true (tui.tabs exampleModel) /\
     t ∈ selectWhere IsOld true (tui.tabs exampleModel)) /\
  (forall t, t ∈ tui.tabs exampleModel -> DuplicateOf t = None ->
     t ∈ selectWhere tui.isDuplicate false (tui.tabs exampleModel)).
Proof.
  assert (H : unlocked exampleModel) by reflexivity.
  split; [exact H|]. exact (Update_selection_keys simpleList exampleModel H).
Defined.

Lemma itemsOf_lookup (ts : list Tab) (i : nat) :
  tui.itemsOf ts !! i
  = (fun t => {| tui.item_tab := t; tui.index := i |}) <$> ts !! i.
Proof. unfold tui.itemsOf. by rewrite list_lookup_imap. Qed.

Lemma itemsOf_elem (ts : list Tab) (it : tui.item) :
  it ∈ tui.itemsOf ts -> ts !! tui.index it = Some (tui.item_tab it).
Proof.
  intros Hin. apply list_elem_of_lookup in Hin as [i Hi].
  rewrite itemsOf_lookup in Hi.
  destruct (ts !! i) as [t|] eqn:Ht; [|done].
  simpl in Hi. injection Hi as <-. done.
Qed.

(** X21. The keys space and enter, when no close operation is in
    flight, flip the selection of the tab the list widget focuses and of
    no other tab; pressed again on the same entry they restore the tab
    list.  Without a focused entry nothing changes.  An entry whose index
    lies outside the tab list makes [Update] panic, which cannot happen
    for an entry built from the model's own tabs. *)
Theorem Update_toggle {L C P} (ops : tui.ListOps L C) (m : tui.model L P)
    (key : string) :
  unlocked m -> key = " " \/ key = "enter" ->
  (tui.SelectedItem ops (tui.lst m) = None ->
   tui.Update ops m (tui.KeyMsg key) = Some (m, tui.NoCmd)) /\
  (forall it, tui.SelectedItem ops (tui.lst m) = Some it ->
     (tui.tabs m !! tui.index it = None ->
      tui.Update ops m (tui.KeyMsg key) = None) /\
     (it ∈ tui.itemsOf (tui.tabs m) ->
      is_Some (tui.Update ops m (tui.KeyMsg key))) /\
     (forall t, tui.tabs m !! tui.index it = Some t ->
        exists m',
          tui.Update ops m (tui.KeyMsg key) = Some (m', tui.NoCmd) /\
          tui.tabs m' !! tui.index it = Some (set_Selected t (negb (Selected t))) /\
          (forall j, j <> tui.index it -> tui.tabs m' !! j = tui.tabs m !! j) /\
          unlocked m' /\
          (forall it', tui.SelectedItem ops (tui.lst m') = Some it' ->
             tui.index it' = tui.index it ->
             exists m'',
               tui.Update ops m' (tui.KeyMsg key) = Some (m'', tui.NoCmd) /\
               tui.tabs m'' = tui.tabs m))).
Proof.
  intros Hunlocked Hkey. unfold unlocked in Hunlocked.
  assert (Hstep : forall (m0 : tui.model L P),
            tui.closing m0 && negb (tui.closingDone m0) = false ->
            tui.Update ops m0 (tui.KeyMsg key)
            = match tui.SelectedItem ops (tui.lst m0) with
              | Some i =>
                  match tui.tabs m0 !! tui.index i with
                  | Some t =>
                      Some (tui.withTabs ops m0
                              (<[tui.index i := set_Selected t (negb (Selected t))]>
                                 (tui.tabs m0)), tui.NoCmd)
                  | None => None
                  end
              | None => Some (m0, tui.NoCmd)
              end).
  { intros m0 H0. unfold tui.Update. rewrite H0.
    by destruct Hkey as [-> | ->]. }
  rewrite (Hstep m Hunlocked). split.
  - by intros ->.
  - intros it ->. split; [by intros ->|]. split.
    + intros Hin. rewrite (itemsOf_elem _ _ Hin). by eexists.
    + intros t Ht. rewrite Ht. eexists. split; [done|].
      assert (Hlt : (tui.index it < length (tui.tabs m))%nat)
        by by eapply lookup_lt_Some.
      cbn [tui.tabs tui.withTabs].
      split; [by rewrite list_lookup_insert_eq|].
      split; [by intros j Hj; rewrite list_lookup_insert_ne|].
      split; [done|].
      intros it' Hit' Hidx. rewrite Hstep by done.
      rewrite Hit'. cbn [tui.tabs tui.withTabs]. rewrite Hidx.
      rewrite list_lookup_insert_eq by done.
      eexists. split; [done|]. cbn [tui.tabs tui.withTabs].
      rewrite list_insert_insert_eq.
      apply list_insert_id. rewrite Ht. f_equal.
      destruct t as [? ? ? ? ? sel ? ?]. simpl. by rewrite negb_involutive.
Qed.

Lemma Update_toggle_witness :
  unlocked exampleModel /\ (" " = " " \/ " " = "enter") /\
  (tui.SelectedItem simpleList (tui.lst exampleModel) = None ->
   tui.Update simpleList exampleModel (tui.KeyMsg " ")
   = Some (exampleModel, tui.NoCmd)) /\
  (forall it, tui.SelectedItem simpleList (tui.lst exampleModel) = Some it ->
     (tui.tabs exampleModel !! tui.index it = None ->
      tui.Update simpleList exampleModel (tui.KeyMsg " ") = None) /\
     (it ∈ tui.itemsOf (tui.tabs exampleModel) ->
      is_Some (tui.Update simpleList exampleModel (tui.KeyMsg " "))) /\
     (forall t, tui.tabs exampleModel !! tui.index it = Some t ->
        exists m',
          tui.Update simpleList exampleModel (tui.KeyMsg " ")
          = Some (m', tui.NoCmd) /\
          tui.tabs m' !! tui.index it = Some (set_Selected t (negb (Selected t))) /\
          (forall j, j <> tui.index it ->
             tui.tabs m' !! j = tui.tabs exampleModel !! j) /\
          unlocked m' /\
          (forall it', tui.SelectedItem simpleList (tui.lst m') = Some it' ->
             tui.index it' = tui.index it ->
             exists m'',
               tui.Update simpleList m' (tui.KeyMsg " ") = Some (m'', tui.NoCmd) /\
               tui.tabs m'' = tui.tabs exampleModel))).
Proof.
  assert (H1 : unlocked exampleModel) by reflexivity.
  assert (H2 : " " = " " \/ " " = "enter") by (left; reflexivity).
  split; [exact H1|]. split; [exact H2|].
  exact (Update_toggle simpleList exampleModel " " H1 H2).
Defined.

(** The third entry of the example model is a selected duplicate;
    space deselects it. *)
Example Update_toggle_example :
  (fun r => Selected <$> tui.tabs r.1)
    <$> tui.Update simpleList exampleModel (tui.KeyMsg " ")
  = Some [false; false; false; true].
Proof. vm_compute. reflexivity. Qed.

Lemma closeTabsAsync_count_range (h : Host) (tabsToClose : list Tab)
    (emptyWindows : list Z) (w : World) :
  0 <= count (closeTabsAsync h tabsToClose emptyWindows w).1
    <= Z.of_nat (length tabsToClose).
Proof.
  destruct (osascript h (issued w) Enumerate) as [currentTabs|] eqn:Hsnap.
  - destruct (closeTabsAsync_run h tabsToClose emptyWindows w currentTabs Hsnap)
      as [_ Hcount].
    destruct (matchTabs_length tabsToClose currentTabs) as [Hsel _].
    rewrite Hcount. cbn [count].
    rewrite (Permutation_length (sort_Slice_Permutation closeLess _)). lia.
  - unfold closeTabsAsync, getSafariTabsRaw, mbind, M_bind, bind, run.
    rewrite Hsnap. simpl. lia.
Qed.

(** X22. The close cycle.  With nothing selected, [c] returns no command
    and only sets the message.  Otherwise it returns the close command
    for exactly the selected tabs, in list order, together with the
    model's window list, and locks the model: every key, [q] and
    [ctrl+c] included, is then ignored.  Whatever the host does, the
    count the command reports lies between 0 and [closingTotal].  The
    completion message asks for a refresh with the model's age threshold
    and at once lets keys through again; the refreshed message installs
    the new tabs and windows and resets the closing state. *)
Theorem Update_close_cycle {L C P} (ops : tui.ListOps L C) (m : tui.model L P) :
  unlocked m ->
  let selected := filter (fun t => Selected t = true) (tui.tabs m) in
  (selected = [] ->
   exists m1,
     tui.Update ops m (tui.KeyMsg "c") = Some (m1, tui.NoCmd) /\
     tui.message m1 = "No tabs selected for closing." /\
     tui.tabs m1 = tui.tabs m /\ tui.closing m1 = tui.closing m) /\
  (selected <> [] ->
   exists m1,
     tui.Update ops m (tui.KeyMsg "c")
     = Some (m1, tui.CloseTabs selected (tui.emptyPinnedOnlyWindows m)) /\
     tui.tabs m1 = tui.tabs m /\
     tui.closingTotal m1 = Z.of_nat (length selected) /\
     (forall key, tui.Update ops m1 (tui.KeyMsg key) = Some (m1, tui.NoCmd)) /\
     (forall h w,
        0 <= count (closeTabsAsync h selected (tui.emptyPinnedOnlyWindows m) w).1
          <= tui.closingTotal m1) /\
     (forall msg, exists m2,
        tui.Update ops m1 (tui.closingComplete msg)
        = Some (m2, tui.RefreshTabs (tui.ageDays m)) /\
        unlocked m2 /\ tui.tabs m2 = tui.tabs m /\
        forall r, exists m3,
          tui.Update ops m2 (tui.tabsRefreshed r) = Some (m3, tui.NoCmd) /\
          tui.tabs m3 = refreshed_tabs r /\
          tui.emptyPinnedOnlyWindows m3 = refreshed_emptyWindows r /\
          tui.lst m3 = tui.SetItems ops (tui.lst m) (tui.itemsOf (refreshed_tabs r)) /\
          tui.closing m3 = false /\ tui.closingTotal m3 = 0 /\
          tui.closingCurrent m3 = 0 /\ unlocked m3)).
Proof.
  intros Hunlocked selected. unfold unlocked in Hunlocked.
  assert (Hc : tui.Update ops m (tui.KeyMsg "c")
               = if bool_decide (length selected = 0%nat) then
                   Some (tui.mkModel (tui.lst m) (tui.tabs m) (tui.quitting m)
                           (tui.closing m) (tui.ageDays m) (tui.progress m)
                           (tui.closingTotal m) (tui.closingCurrent m)
                           (tui.closingDone m) "No tabs selected for closing."
                           (tui.emptyPinnedOnlyWindows m), tui.NoCmd)
                 else
                   Some (tui.mkModel (tui.lst m) (tui.tabs m) (tui.quitting m) true
                           (tui.ageDays m) (tui.progress m)
                           (Z.of_nat (length selected)) 0 false (tui.message m)
                           (tui.emptyPinnedOnlyWindows m),
                         tui.CloseTabs selected (tui.emptyPinnedOnlyWindows m))).
  { unfold tui.Update. by rewrite Hunlocked. }
  rewrite Hc. split.
  - intros Hnone. rewrite Hnone. simpl. by eexists.
  - intros Hsome.
    rewrite bool_decide_false by (by destruct selected).
    eexists. split; [done|]. cbn.
    split; [done|]. split; [done|]. split; [done|].
    split; [intros h w; apply closeTabsAsync_count_range|].
    intros msg. eexists. split; [done|]. cbn.
    split; [done|]. split; [done|].
    intros r. eexists. split; [done|]. by cbn.
Qed.

Lemma Update_close_cycle_witness :
  unlocked exampleModel /\
  let selected := filter (fun t => Selected t = true) (tui.tabs exampleModel) in
  (selected = [] ->
   exists m1,
     tui.Update simpleList exampleModel (tui.KeyMsg "c") = Some (m1, tui.NoCmd) /\
     tui.message m1 = "No tabs selected for closing." /\
     tui.tabs m1 = tui.tabs exampleModel /\
     tui.closing m1 = tui.closing exampleModel) /\
  (selected <> [] ->
   exists m1,
     tui.Update simpleList exampleModel (tui.KeyMsg "c")
     = Some (m1, tui.CloseTabs selected (tui.emptyPinnedOnlyWindows exampleModel)) /\
     tui.tabs m1 = tui.tabs exampleModel /\
     tui.closingTotal m1 = Z.of_nat (length selected) /\
     (forall key, tui.Update simpleList m1 (tui.KeyMsg key) = Some (m1, tui.NoCmd)) /\
     (forall h w,
        0 <= count (closeTabsAsync h selected
                      (tui.emptyPinnedOnlyWindows exampleModel) w).1
          <= tui.closingTotal m1) /\
     (forall msg, exists m2,
        tui.Update simpleList m1 (tui.closingComplete msg)
        = Some (m2, tui.RefreshTabs (tui.ageDays exampleModel)) /\
        unlocked m2 /\ tui.tabs m2 = tui.tabs exampleModel /\
        forall r, exists m3,
          tui.Update simpleList m2 (tui.tabsRefreshed r) = Some (m3, tui.NoCmd) /\
          tui.tabs m3 = refreshed_tabs r /\
          tui.emptyPinnedOnlyWindows m3 = refreshed_emptyWindows r /\
          tui.lst m3 = tui.SetItems simpleList (tui.lst exampleModel)
                         (tui.itemsOf (refreshed_tabs r)) /\
          tui.closing m3 = false /\ tui.closingTotal m3 = 0 /\
          tui.closingCurrent m3 = 0 /\ unlocked m3)).
Proof.
  assert (H : unlocked exampleModel) by reflexivity.
  split; [exact H|]. exact (Update_close_cycle simpleList exampleModel H).
Defined.

(** On the example model [c] asks to close the two marked tabs. *)
Example Update_close_example :
  (fun r => r.2) <$> tui.Update simpleList exampleModel (tui.KeyMsg "c")
  = Some (tui.CloseTabs
            [ set_Selected (set_DuplicateOf (rawTab 2 1 "A" "https://a.com/x") 0) true;
              set_Selected (set_DuplicateOf
                              (rawTab 2 2 "B" "https://site.com/page?id=2") 1) true ]
            []).
Proof. vm_compute. reflexivity. Qed.

(** ** Instances on the examples *)

Lemma filterPinnedTabs_emptyWindows_witness :
  NoDup (filterPinnedTabs alignedTabs).2 /\
  forall w, w ∈ (filterPinnedTabs alignedTabs).2 <->
    (exists t, t ∈ alignedTabs /\ WindowIndex t = w) /\
    (forall t, t ∈ alignedTabs -> WindowIndex t = w ->
       TabIndex t <= 4 /\ isPinned alignedTabs (URL t) = true).
Proof. exact (filterPinnedTabs_emptyWindows alignedTabs). Defined.

Lemma filterPinnedTabs_windows_partition_witness :
  (filterPinnedTabs alignedTabs).1 `sublist_of` alignedTabs /\
  (forall t, t ∈ (filterPinnedTabs alignedTabs).1 ->
     WindowIndex t ∉ (filterPinnedTabs alignedTabs).2) /\
  (forall w, w ∈ allWindows alignedTabs ->
     w ∈ (filterPinnedTabs alignedTabs).2 \/
     exists t, t ∈ (filterPinnedTabs alignedTabs).1 /\ WindowIndex t = w) /\
  (forall w, w ∈ (filterPinnedTabs alignedTabs).2 -> w ∈ allWindows alignedTabs).
Proof. exact (filterPinnedTabs_windows_partition alignedTabs). Defined.

Lemma visitTimesOf_last_row_witness :
  (forall t,
     visitTimesOf exampleHost (default [] (db_Query exampleDB historyQuery))
       !! "https://a.com/x" = Some t <->
     exists k f,
       lastRowFor (default [] (db_Query exampleDB historyQuery)) "https://a.com/x" k f
       /\ t = visitTimeOf exampleHost f) /\
  (visitTimesOf exampleHost (default [] (db_Query exampleDB historyQuery))
     !! "https://a.com/x" = None <->
   forall k f, default [] (db_Query exampleDB historyQuery) !! k
               <> Some (Some ("https://a.com/x", f))).
Proof.
  exact (visitTimesOf_last_row exampleHost
           (default [] (db_Query exampleDB historyQuery)) "https://a.com/x").
Defined.
